(** * myPinyinExt: hover dictionary lookup for Chinese text

  A shallow embedding of the extension's content script (the hover
  controller, span collection over DOM text nodes, highlight projection
  and popup placement) and of the background listener that answers
  search requests, together with the properties stated about them. *)

From stdpp Require Import gmap strings list fin_maps.
From Stdlib Require Import ZArith Lia DecimalString.
From Equations Require Import Equations.

(** ** JavaScript strings

  A JavaScript string is a sequence of UTF-16 code units; [length],
  indexing, [substring] and [replace] all work on code units. *)

Module JsString.

Abbreviation ustring := (list N).

(** The code units of an ASCII literal. *)
Definition lit (s : string) : ustring :=
  map (fun a => N.of_nat (Ascii.nat_of_ascii a)) (String.list_ascii_of_string s).

(** [s.length] *)
Definition jslength (s : ustring) : Z := Z.of_nat (length s).

(** [s.substring(start, end)]: both indices are clamped to
    [0 .. s.length] and swapped when [start > end]. *)
Definition clamp (len i : Z) : Z := Z.max 0 (Z.min i len).

Definition substring (s : ustring) (start end_ : Z) : ustring :=
  let a := clamp (jslength s) start in
  let b := clamp (jslength s) end_ in
  take (Z.to_nat (Z.max a b - Z.min a b)) (drop (Z.to_nat (Z.min a b)) s).

Fixpoint startsWith (pat s : ustring) : bool :=
  match pat, s with
  | [], _ => true
  | _ :: _, [] => false
  | p :: pat', c :: s' => if decide (p = c) then startsWith pat' s' else false
  end.

(** [s.replace(pat, rep)] with a string pattern: only the first
    occurrence is replaced.  (The replacement used by the extension is
    the empty string, so no [$] pattern is involved.) *)
Fixpoint replace (pat rep s : ustring) : ustring :=
  if startsWith pat s then rep ++ drop (length pat) s
  else match s with
       | [] => []
       | c :: s' => c :: replace pat rep s'
       end.

(** Number of occurrences of a code unit. *)
Definition occurrences (c : N) (s : ustring) : nat :=
  length (filter (fun x => x = c) s).

End JsString.
Import JsString.

(** ** The DOM tree

  The page is a tree of nodes.  A node reference is the list of child
  indices leading to it, innermost index first, so that the parent of
  [i :: p] is [p] and the root (the document) is [[]]. *)

#[local] Set Warnings "-register-all".
Inductive Node : Type :=
| Text (data : ustring)
| Element (nodeName : string) (hasForm : bool) (childNodes : list Node).

Abbreviation NodeRef := (list nat).

Section Node_induction.
Variable P : Node → Prop.
Hypothesis HText : ∀ data, P (Text data).
Hypothesis HElement : ∀ name form kids, Forall P kids → P (Element name form kids).

Fixpoint Node_nested_ind (n : Node) : P n :=
  match n with
  | Text data => HText data
  | Element name form kids =>
      HElement name form kids
        ((fix go (ks : list Node) : Forall P ks :=
            match ks with
            | [] => Forall_nil_2 P
            | k :: ks' => Forall_cons_2 P k ks' (Node_nested_ind k) (go ks')
            end) kids)
  end.
End Node_induction.

Module Dom.

(** Follow child indices from a node, outermost index first. *)
Fixpoint descend (n : Node) (route : list nat) : option Node :=
  match route with
  | [] => Some n
  | i :: route' =>
      match n with
      | Text _ => None
      | Element _ _ kids =>
          match kids !! i with
          | Some k => descend k route'
          | None => None
          end
      end
  end.

Definition nodeAt (doc : Node) (p : NodeRef) : option Node := descend doc (rev p).

(** [node.parentNode]; [None] is [null]. *)
Definition parentNode (p : NodeRef) : option NodeRef :=
  match p with
  | [] => None
  | _ :: parent => Some parent
  end.

(** [node.data] of a text node; elements have no [data]. *)
Definition nodeData (doc : Node) (p : NodeRef) : option ustring :=
  match nodeAt doc p with
  | Some (Text data) => Some data
  | _ => None
  end.

Definition isTextNode (doc : Node) (p : NodeRef) : bool :=
  match nodeAt doc p with
  | Some (Text _) => true
  | _ => false
  end.

(** The length of a node as used for range boundary points. *)
Definition nodeLength (doc : Node) (p : NodeRef) : Z :=
  match nodeAt doc p with
  | Some (Text data) => jslength data
  | Some (Element _ _ kids) => Z.of_nat (length kids)
  | None => 0
  end.

(** The text nodes of the subtree [n] located at [here], in document
    order: what a [NodeIterator] with [SHOW_TEXT] rooted there yields. *)
Fixpoint texts (n : Node) (here : NodeRef) {struct n} : list NodeRef :=
  match n with
  | Text _ => [here]
  | Element _ _ kids =>
      (fix kidsTexts (ks : list Node) (i : nat) {struct ks} : list NodeRef :=
         match ks with
         | [] => []
         | k :: ks' => texts k (i :: here) ++ kidsTexts ks' (S i)
         end) kids 0
  end.

Fixpoint kidsTexts (here : NodeRef) (ks : list Node) (i : nat) : list NodeRef :=
  match ks with
  | [] => []
  | k :: ks' => texts k (i :: here) ++ kidsTexts here ks' (S i)
  end.

(** [document.createNodeIterator(root, NodeFilter.SHOW_TEXT, null)] *)
Definition createNodeIterator (doc : Node) (root : NodeRef) : list NodeRef :=
  match nodeAt doc root with
  | Some n => texts n root
  | None => []
  end.

(** All text nodes of the document in document order. *)
Definition documentTexts (doc : Node) : list NodeRef := texts doc [].

End Dom.
Import Dom.

(** ** The span collector (content script: [findNextTextNode], [getText]) *)

Module Span.

(** Advance a node iterator until it has returned [previous]; the result
    is the iterator's remaining sequence, [None] when the iterator is
    exhausted first (the [while (node !== previous)] loop). *)
Fixpoint seek (it : list NodeRef) (previous : NodeRef) : option (list NodeRef) :=
  match it with
  | [] => None
  | node :: it' => if decide (node = previous) then Some it' else seek it' previous
  end.

(** [findNextTextNode(root, previous)] for a non-null [root]: look for the
    text node after [previous] below [root], and retry from
    [root.parentNode] when [previous] is not found or is the last one. *)
Fixpoint findNextTextNodeFrom (doc : Node) (root previous : NodeRef) : option NodeRef :=
  let retry :=
    match root with
    | [] => None
    | _ :: parent => findNextTextNodeFrom doc parent previous
    end in
  match seek (createNodeIterator doc root) previous with
  | Some (result :: _) => Some result
  | Some [] => retry
  | None => retry
  end.

Definition findNextTextNode (doc : Node) (root : option NodeRef) (previous : NodeRef)
  : option NodeRef :=
  match root with
  | None => None
  | Some r => findNextTextNodeFrom doc r previous
  end.

(** One entry of [selEndList]. *)
Record SelEnd := { node : NodeRef; offset : Z }.

(** [getTextFromSingleNode(node, selEndList, maxLength)]; the list is
    passed by reference in the source, so the updated list is returned
    next to the text. *)
Definition getTextFromSingleNode (doc : Node) (nd : NodeRef) (selEndList : list SelEnd)
    (maxLength : Z) : ustring * list SelEnd :=
  match nodeAt doc nd with
  | Some (Text data) =>
      let endIndex := Z.min maxLength (jslength data) in
      (substring data 0 endIndex, selEndList ++ [{| node := nd; offset := endIndex |}])
  | _ => ([], selEndList)
  end.

(** The [while] loop of [getText]; [None] only when the fuel runs out. *)
Fixpoint getTextLoop (fuel : nat) (doc : Node) (maxLength : Z) (text : ustring)
    (selEndList : list SelEnd) (nextNode : NodeRef) : option (ustring * list SelEnd) :=
  match fuel with
  | O => None
  | S fuel' =>
      if (jslength text <? maxLength)%Z then
        match findNextTextNode doc (parentNode nextNode) nextNode with
        | Some nextNode' =>
            let '(t, selEndList') :=
              getTextFromSingleNode doc nextNode' selEndList (maxLength - jslength text) in
            getTextLoop fuel' doc maxLength (text ++ t) selEndList' nextNode'
        | None => Some (text, selEndList)
        end
      else Some (text, selEndList)
  end.

(** [getText(startNode, offset, selEndList, maxLength)].  Each turn of the
    loop moves to a later text node of the document, so one more unit of
    fuel than there are text nodes is always enough. *)
Definition getText (doc : Node) (startNode : NodeRef) (offset_ : Z)
    (selEndList : list SelEnd) (maxLength : Z) : option (ustring * list SelEnd) :=
  match nodeAt doc startNode with
  | Some (Text data) =>
      let endIndex := Z.min (jslength data) (offset_ + maxLength) in
      let text := substring data offset_ endIndex in
      let selEndList := selEndList ++ [{| node := startNode; offset := endIndex |}] in
      getTextLoop (S (length (documentTexts doc))) doc maxLength text selEndList startNode
  | _ => Some ([], selEndList)
  end.

(** The default [maxLength]. *)
Definition defaultMaxLength : Z := 7.

(** The [for] loop of [highlightMatch]: [selEnd] is the entry last
    visited, [offset] what is left of the end position. *)
Fixpoint selEndLoop (selEndList : list SelEnd) (selEnd : option SelEnd) (offset_ : Z)
  : option SelEnd * Z :=
  match selEndList with
  | [] => (selEnd, offset_)
  | e :: rest =>
      if (offset_ <=? offset e)%Z then (Some e, offset_)
      else selEndLoop rest (Some e) (offset_ - offset e)
  end.

(** The end boundary [highlightMatch] computes, [None] when the list is
    empty (the function returns at once). *)
Definition projectEnd (rangeStartOffset matchLen : Z) (selEndList : list SelEnd)
  : option (NodeRef * Z) :=
  match selEndLoop selEndList None (rangeStartOffset + matchLen) with
  | (Some e, off) => Some (node e, off)
  | (None, _) => None
  end.

(** The document-order view used to state what the collector returns:
    the text from [offset] in [startNode] to the end of the document. *)
Definition followingTextNodes (doc : Node) (p : NodeRef) : list NodeRef :=
  default [] (seek (documentTexts doc) p).

Definition dataOf (doc : Node) (p : NodeRef) : ustring := default [] (nodeData doc p).

Definition remainingText (doc : Node) (startNode : NodeRef) (offset_ : Z) : ustring :=
  drop (Z.to_nat offset_) (dataOf doc startNode)
  ++ concat (map (dataOf doc) (followingTextNodes doc startNode)).

(** What the loop of [getText] contributes, read off that view: visit
    the following text nodes in order while some budget is left, taking
    from each at most what is left. *)
Fixpoint collectFrom (doc : Node) (budget : Z) (following : list NodeRef)
  : ustring * list SelEnd :=
  match following with
  | [] => ([], [])
  | p :: following' =>
      if (0 <? budget)%Z then
        let endIndex := Z.min budget (jslength (dataOf doc p)) in
        let '(t, l) := collectFrom doc (budget - endIndex) following' in
        (substring (dataOf doc p) 0 endIndex ++ t, {| node := p; offset := endIndex |} :: l)
      else ([], [])
  end.

(** Sum of the recorded offsets. *)
Definition offsetSum (l : list SelEnd) : Z := foldr (λ e acc, (offset e + acc)%Z) 0%Z l.

(** Offsets that never go down along the list. *)
Definition nonDecreasing (l : list Z) : Prop :=
  ∀ i j a b, i ≤ j → l !! i = Some a → l !! j = Some b → (a ≤ b)%Z.

End Span.
Import Span.

(** ** Messages between the page context and the background *)

Record DictionaryEntry := {
  simplified : ustring;
  traditional : ustring;
  pinyin : ustring;
  definition : list ustring
}.

Module Request.
(** A message object: [type] selects the case; the other properties are
    the ones the listeners read ([text] for [search] and [showPopup],
    [originalText] and [selStartOffset] for [search]). *)
Record t := {
  type : string;
  text : ustring;
  originalText : ustring;
  selStartOffset : Z
}.
End Request.

Module Response.
(** The response to a [search] request: [data] and [matchLen] from
    [lookUpWord], and the two properties the background listener copies
    over from the request. *)
Record t := {
  data : list DictionaryEntry;
  matchLen : nat;
  originalText : ustring;
  selStartOffset : Z
}.
End Response.

Inductive JsError :=
| ReferenceError (name : string)
| TypeError (what : string)
| IndexSizeError.

(** A [console.log] call: the text and the request logged with it. *)
Record LogEntry := { logText : string; logged : option Request.t }.

(** ** The dictionary index and the longest-match resolver *)

Module Dictionary.

Abbreviation DictionaryIndex := (gmap ustring (list DictionaryEntry)).

(** Modelled from the spec: [dictionary.js] (class [Dictionary], with
    [loadDict] and [lookUpWord]) is imported by [mypy.js] but is not among
    the sources.  The index maps a headword to the entries filed under
    it; [lookup] is the exact-string lookup, empty when the headword is
    not a key. *)
Definition lookup (index : DictionaryIndex) (headword : ustring) : list DictionaryEntry :=
  default [] (index !! headword).

(** Modelled from the spec: [dictionary.js] is missing;
    [maxHeadwordLength] is the maximum key length. *)
Definition maxHeadwordLength (index : DictionaryIndex) : nat :=
  max_list (length <$> (map_to_list index).*1).

(** Modelled from the spec: the data-model invariant of an index built
    by the missing [dictionary.js]: headwords are non-empty strings and
    each is filed with the group of its entries, at least one. *)
Definition wellFormed (index : DictionaryIndex) : Prop :=
  map_Forall (λ headword entries, headword ≠ [] ∧ entries ≠ []) index.

(** Modelled from the spec: what the resolver of the missing
    [dictionary.js] returns on a match. *)
Record Match := { entries : list DictionaryEntry; matchLength : nat }.

(** Modelled from the spec: [dictionary.js] is missing.  For candidate
    length [L] from the starting length down to 1, test
    [lookup(buffer[0:L])] and return the first [L] with a non-empty
    result, along with its entries; [None] is [noMatch]. *)
Fixpoint resolveFrom (index : DictionaryIndex) (buffer : ustring) (L : nat) : option Match :=
  match L with
  | O => None
  | S L' =>
      match lookup index (take L buffer) with
      | [] => resolveFrom index buffer L'
      | found => Some {| entries := found; matchLength := L |}
      end
  end.

(** Modelled from the spec: [dictionary.js] is missing.
    [resolve(buffer, index)], starting at
    [min(len(buffer), index.maxHeadwordLength())]. *)
Definition resolve (buffer : ustring) (index : DictionaryIndex) : option Match :=
  resolveFrom index buffer (Nat.min (length buffer) (maxHeadwordLength index)).

(** Modelled from the spec: [dictionary.js] is missing.  [lookUpWord]
    is the resolver as the background listener calls it: its result
    carries [data] and [matchLen], and is absent when nothing matches. *)
Definition lookUpWord (index : DictionaryIndex) (word : ustring) : option Match :=
  resolve word index.

End Dictionary.
Import Dictionary.

(** ** The background listener ([background.js]) *)

Module Background.

(** The [MyPy] object: [dict] is absent before the first enabling and
    after [delete this.dict]. *)
Record MyPy := {
  enabled : bool;
  dict : option DictionaryIndex
}.

(** How a call of the listener ends: with the response handed to
    [callback] (if it was called) and what was logged, or by throwing. *)
Inductive Outcome :=
| Returned (callbackArg : option (option Response.t)) (log : list LogEntry)
| Threw (e : JsError).

(** [chrome.runtime.onMessage.addListener((request, sender, callback) => ...)] *)
Definition onMessage (mypy : MyPy) (request : Request.t) : Outcome :=
  if String.eqb (Request.type request) "search" then
    match dict mypy with
    | None => Threw (TypeError "mypy.dict is undefined")
    | Some index =>
        let response :=
          match lookUpWord index (Request.text request) with
          | Some r => Some {| Response.data := entries r;
                              Response.matchLen := matchLength r;
                              Response.originalText := Request.originalText request;
                              Response.selStartOffset := Request.selStartOffset request |}
          | None => None
          end in
        Returned (Some response) []
    end
  else
    Returned None [{| logText := "Background received unknown request: ";
                      logged := Some request |}].

End Background.

(** ** The content script ([content.js]) *)

Module Content.

(** [selText]: declared without a value, later a string or [null]. *)
Inductive SelText :=
| SelUndefined
| SelNull
| SelString (s : ustring).

(** A DOM range, as its two boundary points. *)
Record Range := {
  startContainer : NodeRef;
  startOffset : Z;
  endContainer : NodeRef;
  endOffset : Z
}.

(** The [popup-window] element: its content and the three style
    properties the script writes ([display] is either [''] or ['none']). *)
Record Popup := {
  innerHTML : ustring;
  top : option Z;
  left : option Z;
  displayed : bool
}.

Inductive CaretApi := CaretPositionFromPoint | CaretRangeFromPoint | NoCaretApi.

(** What the script reads from the browser and does not control: the
    page, which caret API exists, how a selected range reads as text,
    how wide and high the popup is laid out for a given content, and the
    viewport. *)
Record Browser := {
  document : Node;
  caretApi : CaretApi;
  isTopWindow : bool;
  rangeText : Range → ustring;
  offsetWidth : ustring → Z;
  offsetHeight : ustring → Z;
  innerWidth : Z;
  innerHeight : Z;
  scrollX : Z;
  scrollY : Z
}.

(** The script's variables ([savedTarget] .. [savedSelEndList]) and the
    part of the browser state it changes: whether its [mousemove]
    listener is registered, the popup element, the document selection,
    the armed timeouts, the messages sent to the background, the console
    and the errors no handler caught.  [None] stands for [undefined] or
    [null]; [savedOffset] starts at -1 in place of [undefined], which no
    code path reads before it is assigned. *)
Record State := {
  savedTarget : option NodeRef;
  savedTextNode : option NodeRef;
  savedOffset : Z;
  selText : SelText;
  popupX : Z;
  popupY : Z;
  timer : option nat;
  savedSelEndList : list SelEnd;
  listening : bool;
  popup : option Popup;
  selection : option Range;
  timeouts : list nat;
  nextTimeout : nat;
  sent : list Request.t;
  console : list LogEntry;
  uncaught : list JsError
}.

Definition initial : State :=
  {| savedTarget := None; savedTextNode := None; savedOffset := -1;
     selText := SelUndefined; popupX := 0; popupY := 0; timer := None;
     savedSelEndList := []; listening := false; popup := None; selection := None;
     timeouts := []; nextTimeout := 1; sent := []; console := []; uncaught := [] |}.

(** Assignment to one variable or one part of the page. *)
Definition set_savedTarget (v : option NodeRef) (s : State) : State :=
  {| savedTarget := v; savedTextNode := savedTextNode s; savedOffset := savedOffset s;
     selText := selText s; popupX := popupX s; popupY := popupY s; timer := timer s;
     savedSelEndList := savedSelEndList s; listening := listening s; popup := popup s;
     selection := selection s; timeouts := timeouts s; nextTimeout := nextTimeout s;
     sent := sent s; console := console s; uncaught := uncaught s |}.

Definition set_savedTextNode (v : option NodeRef) (s : State) : State :=
  {| savedTarget := savedTarget s; savedTextNode := v; savedOffset := savedOffset s;
     selText := selText s; popupX := popupX s; popupY := popupY s; timer := timer s;
     savedSelEndList := savedSelEndList s; listening := listening s; popup := popup s;
     selection := selection s; timeouts := timeouts s; nextTimeout := nextTimeout s;
     sent := sent s; console := console s; uncaught := uncaught s |}.

Definition set_savedOffset (v : Z) (s : State) : State :=
  {| savedTarget := savedTarget s; savedTextNode := savedTextNode s; savedOffset := v;
     selText := selText s; popupX := popupX s; popupY := popupY s; timer := timer s;
     savedSelEndList := savedSelEndList s; listening := listening s; popup := popup s;
     selection := selection s; timeouts := timeouts s; nextTimeout := nextTimeout s;
     sent := sent s; console := console s; uncaught := uncaught s |}.

Definition set_selText (v : SelText) (s : State) : State :=
  {| savedTarget := savedTarget s; savedTextNode := savedTextNode s;
     savedOffset := savedOffset s; selText := v; popupX := popupX s;
     popupY := popupY s; timer := timer s; savedSelEndList := savedSelEndList s;
     listening := listening s; popup := popup s; selection := selection s;
     timeouts := timeouts s; nextTimeout := nextTimeout s; sent := sent s;
     console := console s; uncaught := uncaught s |}.

Definition set_popupX (v : Z) (s : State) : State :=
  {| savedTarget := savedTarget s; savedTextNode := savedTextNode s;
     savedOffset := savedOffset s; selText := selText s; popupX := v;
     popupY := popupY s; timer := timer s; savedSelEndList := savedSelEndList s;
     listening := listening s; popup := popup s; selection := selection s;
     timeouts := timeouts s; nextTimeout := nextTimeout s; sent := sent s;
     console := console s; uncaught := uncaught s |}.

Definition set_popupY (v : Z) (s : State) : State :=
  {| savedTarget := savedTarget s; savedTextNode := savedTextNode s;
     savedOffset := savedOffset s; selText := selText s; popupX := popupX s;
     popupY := v; timer := timer s; savedSelEndList := savedSelEndList s;
     listening := listening s; popup := popup s; selection := selection s;
     timeouts := timeouts s; nextTimeout := nextTimeout s; sent := sent s;
     console := console s; uncaught := uncaught s |}.

Definition set_timer (v : option nat) (s : State) : State :=
  {| savedTarget := savedTarget s; savedTextNode := savedTextNode s;
     savedOffset := savedOffset s; selText := selText s; popupX := popupX s;
     popupY := popupY s; timer := v; savedSelEndList := savedSelEndList s;
     listening := listening s; popup := popup s; selection := selection s;
     timeouts := timeouts s; nextTimeout := nextTimeout s; sent := sent s;
     console := console s; uncaught := uncaught s |}.

Definition set_savedSelEndList (v : list SelEnd) (s : State) : State :=
  {| savedTarget := savedTarget s; savedTextNode := savedTextNode s;
     savedOffset := savedOffset s; selText := selText s; popupX := popupX s;
     popupY := popupY s; timer := timer s; savedSelEndList := v;
     listening := listening s; popup := popup s; selection := selection s;
     timeouts := timeouts s; nextTimeout := nextTimeout s; sent := sent s;
     console := console s; uncaught := uncaught s |}.

Definition set_listening (v : bool) (s : State) : State :=
  {| savedTarget := savedTarget s; savedTextNode := savedTextNode s;
     savedOffset := savedOffset s; selText := selText s; popupX := popupX s;
     popupY := popupY s; timer := timer s; savedSelEndList := savedSelEndList s;
     listening := v; popup := popup s; selection := selection s;
     timeouts := timeouts s; nextTimeout := nextTimeout s; sent := sent s;
     console := console s; uncaught := uncaught s |}.

Definition set_popup (v : option Popup) (s : State) : State :=
  {| savedTarget := savedTarget s; savedTextNode := savedTextNode s;
     savedOffset := savedOffset s; selText := selText s; popupX := popupX s;
     popupY := popupY s; timer := timer s; savedSelEndList := savedSelEndList s;
     listening := listening s; popup := v; selection := selection s;
     timeouts := timeouts s; nextTimeout := nextTimeout s; sent := sent s;
     console := console s; uncaught := uncaught s |}.

Definition set_selection (v : option Range) (s : State) : State :=
  {| savedTarget := savedTarget s; savedTextNode := savedTextNode s;
     savedOffset := savedOffset s; selText := selText s; popupX := popupX s;
     popupY := popupY s; timer := timer s; savedSelEndList := savedSelEndList s;
     listening := listening s; popup := popup s; selection := v;
     timeouts := timeouts s; nextTimeout := nextTimeout s; sent := sent s;
     console := console s; uncaught := uncaught s |}.

Definition set_timeouts (v : list nat) (s : State) : State :=
  {| savedTarget := savedTarget s; savedTextNode := savedTextNode s;
     savedOffset := savedOffset s; selText := selText s; popupX := popupX s;
     popupY := popupY s; timer := timer s; savedSelEndList := savedSelEndList s;
     listening := listening s; popup := popup s; selection := selection s;
     timeouts := v; nextTimeout := nextTimeout s; sent := sent s; console := console s;
     uncaught := uncaught s |}.

Definition set_nextTimeout (v : nat) (s : State) : State :=
  {| savedTarget := savedTarget s; savedTextNode := savedTextNode s;
     savedOffset := savedOffset s; selText := selText s; popupX := popupX s;
     popupY := popupY s; timer := timer s; savedSelEndList := savedSelEndList s;
     listening := listening s; popup := popup s; selection := selection s;
     timeouts := timeouts s; nextTimeout := v; sent := sent s; console := console s;
     uncaught := uncaught s |}.

Definition set_sent (v : list Request.t) (s : State) : State :=
  {| savedTarget := savedTarget s; savedTextNode := savedTextNode s;
     savedOffset := savedOffset s; selText := selText s; popupX := popupX s;
     popupY := popupY s; timer := timer s; savedSelEndList := savedSelEndList s;
     listening := listening s; popup := popup s; selection := selection s;
     timeouts := timeouts s; nextTimeout := nextTimeout s; sent := v;
     console := console s; uncaught := uncaught s |}.

Definition set_console (v : list LogEntry) (s : State) : State :=
  {| savedTarget := savedTarget s; savedTextNode := savedTextNode s;
     savedOffset := savedOffset s; selText := selText s; popupX := popupX s;
     popupY := popupY s; timer := timer s; savedSelEndList := savedSelEndList s;
     listening := listening s; popup := popup s; selection := selection s;
     timeouts := timeouts s; nextTimeout := nextTimeout s; sent := sent s;
     console := v; uncaught := uncaught s |}.

Definition set_uncaught (v : list JsError) (s : State) : State :=
  {| savedTarget := savedTarget s; savedTextNode := savedTextNode s;
     savedOffset := savedOffset s; selText := selText s; popupX := popupX s;
     popupY := popupY s; timer := timer s; savedSelEndList := savedSelEndList s;
     listening := listening s; popup := popup s; selection := selection s;
     timeouts := timeouts s; nextTimeout := nextTimeout s; sent := sent s;
     console := console s; uncaught := v |}.

(** *** A small state-and-exception monad for the handlers *)

Inductive Outcome (A : Type) :=
| Return (a : A)
| Throw (e : JsError)
| OutOfFuel.
Arguments Return {A} a.
Arguments Throw {A} e.
Arguments OutOfFuel {A}.

Definition M (A : Type) : Type := State → Outcome A * State.

Definition ret {A} (a : A) : M A := λ s, (Return a, s).
Definition throw {A} (e : JsError) : M A := λ s, (Throw e, s).
Definition outOfFuel {A} : M A := λ s, (OutOfFuel, s).
Definition get : M State := λ s, (Return s, s).
Definition modify (f : State → State) : M unit := λ s, (Return tt, f s).

Definition bind {A B} (m : M A) (k : A → M B) : M B :=
  λ s, match m s with
       | (Return a, s') => k a s'
       | (Throw e, s') => (Throw e, s')
       | (OutOfFuel, s') => (OutOfFuel, s')
       end.

#[global] Instance M_bind : MBind M := λ A B k m, bind m k.

(** *** Identifier resolution

    The script is in strict mode: reading or assigning a name that is
    neither a local of the running function nor declared at top level
    (nor one of the host globals the script uses) throws a
    [ReferenceError]. *)

Definition topLevelNames : list string :=
  ["savedTarget"; "savedTextNode"; "savedOffset"; "selText"; "popupX"; "popupY"; "timer";
   "savedSearchResults"; "savedSelEndList"; "zwnj"; "enableTabs"; "disableTabs";
   "onMouseMove"; "makeSearch"; "processSearchResult"; "makeHtml"; "showPopup";
   "hidePopup"; "highlightMatch"; "clearHighlight"; "getText"; "getTextFromSingleNode";
   "findNextTextNode"; "defHtml"; "document"; "window"; "chrome"; "console"; "Math";
   "Node"; "NodeFilter"; "Promise"; "setTimeout"; "clearTimeout"].

Definition resolves (locals : list string) (name : string) : bool :=
  bool_decide (name ∈ locals ++ topLevelNames).

Definition reference (locals : list string) (name : string) : M unit :=
  if resolves locals name then ret tt else throw (ReferenceError name).

(** *** Markup of the popup ([defHtml], [makeHtml]) *)

Definition dq : ustring := [34%N].

Definition openDiv (class : string) : ustring :=
  lit "<div class=" ++ dq ++ lit class ++ dq ++ lit ">".

Definition openSpan (class : string) : ustring :=
  lit "<span class=" ++ dq ++ lit class ++ dq ++ lit ">".

Definition decimal (n : nat) : ustring := lit (NilZero.string_of_uint (Nat.to_uint n)).

(** White space in the sense of [String.prototype.trim]. *)
Definition isSpace (c : N) : bool :=
  bool_decide (c ∈ [9; 10; 11; 12; 13; 32; 160; 5760; 8232; 8233; 8239; 8287; 12288; 65279]%N)
  || ((8192 <=? c)%N && (c <=? 8202)%N).

Fixpoint trimStart (s : ustring) : ustring :=
  match s with
  | [] => []
  | c :: s' => if isSpace c then trimStart s' else s
  end.

Definition trim (s : ustring) : ustring := rev (trimStart (rev (trimStart s))).

Fixpoint defHtmlLoop (def : list ustring) (i : nat) : ustring :=
  match def with
  | [] => []
  | d :: def' =>
      lit "<b>" ++ decimal (i + 1) ++ lit "</b> " ++ d ++ lit " " ++ defHtmlLoop def' (S i)
  end.

(** [defHtml(def)]: a one-element list is returned as it is (and reads as
    its element once concatenated). *)
Definition defHtml (def : list ustring) : ustring :=
  match def with
  | [d] => d
  | _ => trim (defHtmlLoop def 0)
  end.

(** The [diff_trad] loop: [traditional[k]] past the end is [undefined]. *)
Fixpoint diffTrad (simplified_ traditional_ : ustring) : ustring :=
  match simplified_ with
  | [] => []
  | c :: simplified' =>
      match traditional_ with
      | t :: _ => if decide (c = t) then [12539%N] else [t]
      | [] => lit "undefined"
      end ++ diffTrad simplified' (tail traditional_)
  end.

Definition entryHtml (e : DictionaryEntry) : ustring :=
  openDiv "entry"
  ++ openDiv "chinese"
  ++ lit "<span>" ++ simplified e ++ lit "</span>"
  ++ openSpan "spacer" ++ lit "</span>"
  ++ lit "<span> " ++ openSpan "brace" ++ lit "[</span>"
  ++ diffTrad (simplified e) (traditional e)
  ++ openSpan "brace" ++ lit "]</span> </span>"
  ++ lit "</div>"
  ++ openDiv "pinyin" ++ lit "<span>" ++ pinyin e ++ lit "</span>" ++ lit "</div>"
  ++ openDiv "def" ++ defHtml (definition e) ++ lit "</div>"
  ++ lit "</div>".

Definition makeHtml (matches : option Response.t) : ustring :=
  match matches with
  | None => []
  | Some m => openDiv "popup-container" ++ concat (map entryHtml (Response.data m))
  end.

(** *** Highlight length ([processSearchResult], the [for] loop) *)

Definition zwnj : N := 8204.  (* U+200C *)

(** The inner [while]: step over the joiners at [highlightLength].  An
    index past the end reads [undefined], which is not a joiner (this also
    covers the test that [originalText] is not empty). *)
Equations? skipJoiners (originalText : ustring) (highlightLength : nat) : nat
  by wf (length originalText - highlightLength) lt :=
  skipJoiners originalText highlightLength
    with Logic.inspect (bool_decide (originalText !! highlightLength = Some zwnj)) := {
    | exist _ true _ => skipJoiners originalText (S highlightLength)
    | exist _ false _ => highlightLength }.
Proof.
  apply bool_decide_eq_true_1, lookup_lt_Some in e. lia.
Qed.

Fixpoint highlightLoop (originalText : ustring) (iterations highlightLength : nat) : nat :=
  match iterations with
  | O => highlightLength
  | S iterations' =>
      highlightLoop originalText iterations' (S (skipJoiners originalText highlightLength))
  end.

Definition highlightLength (originalText : ustring) (matchLen : nat) : nat :=
  highlightLoop originalText matchLen 0.

(** The number of joiners of [originalText] met before its [m]-th
    character that is not a joiner (all of them when there are fewer than
    [m] such characters). *)
Fixpoint joinersBefore (originalText : ustring) (m : nat) {struct originalText} : nat :=
  match m, originalText with
  | O, _ => 0
  | _, [] => 0
  | S m', c :: rest =>
      if decide (c = zwnj) then S (joinersBefore rest m) else joinersBefore rest m'
  end.

(** *** The handlers *)

Section handlers.
Variable env : Browser.

Definition log (txt : string) (request : option Request.t) : M unit :=
  modify (λ s, set_console (console s ++ [{| logText := txt; logged := request |}]) s).

(** [sel.isCollapsed] and [sel.toString()] of the document selection. *)
Definition isCollapsed (sel : option Range) : bool :=
  match sel with
  | None => true
  | Some r => bool_decide (startContainer r = endContainer r ∧ startOffset r = endOffset r)
  end.

Definition selectionToString (sel : option Range) : ustring :=
  match sel with
  | None => []
  | Some r => rangeText env r
  end.

(** [selText === str] *)
Definition selTextIs (t : SelText) (str : ustring) : bool :=
  match t with
  | SelString s => bool_decide (s = str)
  | _ => false
  end.

Definition clearHighlight : M unit :=
  s ← get;
  match selText s with
  | SelNull => ret tt
  | _ =>
      (if isCollapsed (selection s)
          || selTextIs (selText s) (selectionToString (selection s))
       then modify (set_selection None)
       else ret tt);;
      modify (set_selText SelNull)
  end.

Definition hidePopup : M unit :=
  modify (λ s, match popup s with
               | Some p => set_popup (Some {| innerHTML := []; top := top p;
                                              left := left p; displayed := false |}) s
               | None => s
               end).

Definition enableTabs : M unit := modify (set_listening true).

Definition disableTabs : M unit :=
  modify (set_listening false);;
  modify (set_popup None);;
  clearHighlight.

(** The height fallback of [showPopup]: 22 more for every [<br/>] found
    by the [indexOf] loop, which resumes 5 code units after each hit. *)
Fixpoint brHeight (html : ustring) (skip : nat) (pH : Z) : Z :=
  match html with
  | [] => pH
  | _ :: html' =>
      match skip with
      | S skip' => brHeight html' skip' pH
      | O => if startsWith (lit "<br/>") html then brHeight html' 4 (pH + 22)
             else brHeight html' 0 pH
      end
  end.

Definition showPopupLocals : list string :=
  ["html"; "elem"; "x"; "y"; "popup"; "v"; "pW"; "pH"; "j"; "t"].

Definition showPopup (html : ustring) (elem : option NodeRef) (x y : option Z) : M unit :=
  let '(x, y) :=
    match x, y with
    | Some x', Some y' => if (x' =? 0)%Z || (y' =? 0)%Z then (0, 0)%Z else (x', y')
    | _, _ => (0, 0)%Z
    end in
  s ← get;
  let created := default {| innerHTML := []; top := None; left := None; displayed := true |}
                         (popup s) in
  modify (set_popup (Some {| innerHTML := html; top := top created; left := left created;
                             displayed := displayed created |}));;
  '(x, y) ←
    match elem with
    | Some _ =>
        modify (set_popup (Some {| innerHTML := html; top := Some (-1000)%Z;
                                   left := Some 0%Z; displayed := true |}));;
        let v := 25%Z in
        let pW := offsetWidth env html in
        let pH := offsetHeight env html in
        (if (pW <=? 0)%Z then reference showPopupLocals "pw" else ret tt);;
        let pH := if (pH <=? 0)%Z then brHeight html 0 25 else pH in
        let x := if (innerWidth env - 20 <? x + pW)%Z
                 then (let x1 := (innerWidth env - pW - 20)%Z in
                       if (x1 <? 0)%Z then 0%Z else x1)
                 else x in
        let y := if (innerHeight env <? y + v + pH)%Z
                 then (let t := (y - pH - 30)%Z in
                       if (0 <=? t)%Z then t else (y + v)%Z)
                 else (y + v)%Z in
        ret (x, y)
    | None => ret (x, y)
    end;
  let x := (x + scrollX env)%Z in
  let y := (y + scrollY env)%Z in
  if negb (x =? -1)%Z && negb (y =? -1)%Z then
    modify (λ s, match popup s with
                 | Some p => set_popup (Some {| innerHTML := innerHTML p; top := Some y;
                                                left := Some x; displayed := true |}) s
                 | None => s
                 end)
  else ret tt.

(** [range.setStart] and [range.setEnd] throw when the offset is not
    within the node.  (That they also move the other boundary when the
    two end up in the wrong order is not modelled.) *)
Definition setBoundary (nd : NodeRef) (off : Z) : M unit :=
  if (off <? 0)%Z || (nodeLength (document env) nd <? off)%Z
  then throw IndexSizeError else ret tt.

Definition highlightMatch (rangeStartNode : NodeRef) (rangeStartOffset matchLen : Z)
    (selEndList : list SelEnd) : M unit :=
  match projectEnd rangeStartOffset matchLen selEndList with
  | None => ret tt
  | Some (endNode, offset_) =>
      setBoundary rangeStartNode rangeStartOffset;;
      setBoundary endNode offset_;;
      let range := {| startContainer := rangeStartNode; startOffset := rangeStartOffset;
                      endContainer := endNode; endOffset := offset_ |} in
      s ← get;
      if negb (isCollapsed (selection s))
         && negb (selTextIs (selText s) (selectionToString (selection s)))
      then ret tt
      else
        modify (set_selection (Some range));;
        modify (set_selText (SelString (rangeText env range)))
  end.

(** ['form' in savedTarget] for an element of the page. *)
Definition hasFormProperty (target : NodeRef) : bool :=
  match nodeAt (document env) target with
  | Some (Element _ form _) => form
  | _ => false
  end.

(** [node.ownerDocument] is null for the document itself only. *)
Definition hasOwnerDocument (nd : NodeRef) : bool :=
  match nd with
  | [] => false
  | _ :: _ => true
  end.

Definition processSearchResult (result : option Response.t) : M unit :=
  match result with
  | None => hidePopup;; clearHighlight
  | Some r =>
      if bool_decide (Response.data r = []) then hidePopup;; clearHighlight
      else
        s ← get;
        let selStartOffset := Response.selStartOffset r in
        let selEndList := savedSelEndList s in
        let highlightLength_ :=
          highlightLength (Response.originalText r) (Response.matchLen r) in
        match savedTarget s with
        | None => throw (TypeError "cannot use 'in' on undefined")
        | Some target =>
            proceed ←
              (if negb (hasFormProperty target) then
                 match savedTextNode s with
                 | None => throw (TypeError "textNode is null")
                 | Some textNode =>
                     if hasOwnerDocument textNode then
                       highlightMatch textNode selStartOffset (Z.of_nat highlightLength_)
                                      selEndList;;
                       ret true
                     else
                       clearHighlight;; hidePopup;; ret false
                 end
               else ret true);
            if proceed : bool then
              showPopup (makeHtml (Some r)) (Some target) (Some (popupX s)) (Some (popupY s))
            else ret tt
        end
  end.

Definition makeSearch : M Z :=
  s ← get;
  match savedTextNode s with
  | None => clearHighlight;; hidePopup;; ret 1%Z
  | Some textNode =>
      let selStartOffset := savedOffset s in
      outside ←
        (if (selStartOffset <? 0)%Z then ret true
         else match nodeData (document env) textNode with
              | Some d => ret (jslength d <=? selStartOffset)%Z
              | None => throw (TypeError "textNode.data is undefined")
              end);
      if outside : bool then clearHighlight;; hidePopup;; ret 2%Z
      else
        match getText (document env) textNode selStartOffset [] defaultMaxLength with
        | None => outOfFuel
        | Some (originalText, selEndList) =>
            let text := replace (lit "&zwnj") [] originalText in
            modify (set_savedSelEndList selEndList);;
            modify (λ s, set_sent (sent s ++ [{| Request.type := "search";
                                                 Request.text := text;
                                                 Request.originalText := originalText;
                                                 Request.selStartOffset := selStartOffset |}]) s);;
            ret 0%Z
        end
  end.

(** A [mousemove] event, with what the caret API answers for its
    coordinates ([None] for null). *)
Record MouseEvent := {
  target : NodeRef;
  clientX : Z;
  clientY : Z;
  caret : option (NodeRef * Z)
}.

Definition clearTimeout (id : nat) : M unit :=
  modify (λ s, set_timeouts (filter (λ i, i ≠ id) (timeouts s)) s).

(** [timer = setTimeout(() => {makeSearch()}, 50)] *)
Definition setTimer : M unit :=
  modify (λ s, set_timer (Some (nextTimeout s))
                 (set_timeouts (timeouts s ++ [nextTimeout s])
                    (set_nextTimeout (S (nextTimeout s)) s))).

Definition hasText (nd : NodeRef) : option ustring :=
  match nodeData (document env) nd with
  | Some d => if bool_decide (d = []) then None else Some d
  | None => None
  end.

Definition onMouseMove (mouseMove : MouseEvent) : M unit :=
  match caretApi env with
  | NoCaretApi =>
      log "Neither caretPositionFromPoint nor caretRangeFromPoint supported" None
  | _ =>
      match caret mouseMove with
      | None => ret tt
      | Some (textNode, offset_) =>
          s ← get;
          if bool_decide (savedTarget s = Some (target mouseMove)
                          ∧ savedTextNode s = Some textNode
                          ∧ savedOffset s = offset_)
          then ret tt
          else
            match timer s with
            | Some (S _ as id) => clearTimeout id;; modify (set_timer None)
            | _ => ret tt
            end;;
            let '(textNode, offset_) :=
              match hasText textNode with
              | Some d =>
                  if (offset_ =? jslength d)%Z
                  then (findNextTextNode (document env) (parentNode textNode) textNode, 0%Z)
                  else (Some textNode, offset_)
              | None => (Some textNode, offset_)
              end in
            let '(textNode, offset_) :=
              match textNode with
              | Some t =>
                  if bool_decide (parentNode t = Some (target mouseMove))
                  then (Some t, offset_) else (None, (-1)%Z)
              | None => (None, (-1)%Z)
              end in
            modify (set_savedTarget (Some (target mouseMove)));;
            modify (set_savedTextNode textNode);;
            modify (set_savedOffset offset_);;
            let overText :=
              match textNode ≫= hasText with
              | Some d => (offset_ <? jslength d)%Z
              | None => false
              end in
            if overText then
              modify (set_popupX (clientX mouseMove));;
              modify (set_popupY (clientY mouseMove));;
              setTimer
            else
              s ← get;
              let dx := (popupX s - clientX mouseMove)%Z in
              let dy := (popupY s - clientY mouseMove)%Z in
              (* Math.sqrt(dx * dx + dy * dy) > 4 *)
              if (16 <? dx * dx + dy * dy)%Z then clearHighlight;; hidePopup
              else ret tt
      end
  end.

(** [chrome.runtime.onMessage.addListener((request) => ...)] of the
    content script. *)
Definition onMessage (request : Request.t) : M unit :=
  if String.eqb (Request.type request) "enable" then enableTabs
  else if String.eqb (Request.type request) "disable" then disableTabs
  else if String.eqb (Request.type request) "showPopup" then
    (if isTopWindow env then showPopup (Request.text request) None None None else ret tt)
  else
    reference ["request"] "reqest";;
    log "Content received unknown request: " (Some request).

(** *** The event loop seen from the content script *)

Inductive Event :=
| MouseMoved (mouseMove : MouseEvent)
| TimerFired (id : nat)
| MessageReceived (request : Request.t)
| ResponseReceived (result : option Response.t).

(** A timeout that fires leaves the table of armed timeouts; one that
    was cleared, or fired before, does nothing. *)
Definition handle (ev : Event) : M unit :=
  match ev with
  | MouseMoved mouseMove =>
      s ← get; if listening s then onMouseMove mouseMove else ret tt
  | TimerFired id =>
      s ← get;
      if bool_decide (id ∈ timeouts s) then clearTimeout id;; makeSearch;; ret tt
      else ret tt
  | MessageReceived request => onMessage request
  | ResponseReceived result => processSearchResult result
  end.

(** An exception that escapes a handler ends that handler only. *)
Definition dispatch (s : State) (ev : Event) : State :=
  match handle ev s with
  | (Throw e, s') => set_uncaught (uncaught s' ++ [e]) s'
  | (_, s') => s'
  end.

Definition run (evs : list Event) (s : State) : State := foldl dispatch s evs.

(** The popup is on screen. *)
Definition popupShown (s : State) : bool :=
  match popup s with
  | Some p => displayed p
  | None => false
  end.

(** The document selection is not one the script recorded as its own:
    it is not collapsed and its text differs from [selText]. *)
Definition foreignSelection (s : State) : Prop :=
  isCollapsed (selection s) = false
  ∧ selTextIs (selText s) (selectionToString (selection s)) = false.

(** A computation keeps a foreign selection: started with one, it ends
    (normally or not) with the same selection, still foreign. *)
Definition Keeps {A} (m : M A) : Prop :=
  ∀ s o s', foreignSelection s → m s = (o, s') →
            selection s' = selection s ∧ foreignSelection s'.

(** A computation does not look at [savedOffset]: started from a state
    that differs in [savedOffset] only, it ends the same way in a state
    that differs in [savedOffset] only. *)
Definition IgnoresSavedOffset {A} (m : M A) : Prop :=
  ∀ s o s' off, m s = (o, s') → m (set_savedOffset off s) = (o, set_savedOffset off s').

(** The text [getText] collects at the saved hover position. *)
Definition hoveredText (s : State) : option ustring :=
  match savedTextNode s with
  | Some textNode =>
      fst <$> getText (document env) textNode (savedOffset s) [] defaultMaxLength
  | None => None
  end.

(** A response is stale when the offset or the text it was requested
    for is no longer the saved hover position or the text found there. *)
Definition stale (s : State) (r : Response.t) : Prop :=
  Response.selStartOffset r ≠ savedOffset s
  ∨ hoveredText s ≠ Some (Response.originalText r).

End handlers.

End Content.

(** ** Sample pages and texts used in the examples *)

Module Sample.

Definition zhong : N := 20013.  (* U+4E2D *)
Definition guo : N := 22269.    (* U+56FD *)
Definition ren : N := 20154.    (* U+4EBA *)
Definition min : N := 27665.    (* U+6C11 *)
Definition ni : N := 20320.     (* U+4F60 *)
Definition hao : N := 22909.    (* U+597D *)
Definition ma : N := 21527.     (* U+5417 *)

(** [<html><body><p>你好吗中国<b>人民</b></p></body></html>] *)
Definition page : Node :=
  Element "#document" false
    [Element "HTML" false
       [Element "BODY" false
          [Element "P" false
             [Text [ni; hao; ma; zhong; guo];
              Element "B" false [Text [ren; min]]]]]].

Definition paragraph : NodeRef := [0; 0; 0].
Definition firstText : NodeRef := [0; 0; 0; 0].
Definition boldText : NodeRef := [0; 1; 0; 0; 0].

Definition nihao : DictionaryEntry :=
  {| simplified := [ni; hao]; traditional := [ni; hao];
     pinyin := lit "ni3 hao3"; definition := [lit "hello"] |}.

Definition zhong1 : DictionaryEntry :=
  {| simplified := [zhong]; traditional := [zhong];
     pinyin := lit "zhong1"; definition := [lit "middle"; lit "center"] |}.

Definition zhongguo : DictionaryEntry :=
  {| simplified := [zhong; guo]; traditional := [zhong; 22283%N];
     pinyin := lit "Zhong1 guo2"; definition := [lit "China"] |}.

Definition index : gmap ustring (list DictionaryEntry) :=
  <[ [ni; hao] := [nihao] ]> (<[ [zhong] := [zhong1] ]> (<[ [zhong; guo] := [zhongguo] ]> ∅)).

Definition mypy : Background.MyPy :=
  {| Background.enabled := true; Background.dict := Some index |}.

(** The text nodes of [l] before [stop]. *)
Fixpoint upTo (stop : NodeRef) (l : list NodeRef) : list NodeRef :=
  match l with
  | [] => []
  | p :: l' => if decide (p = stop) then [] else p :: upTo stop l'
  end.

(** The characters between the two boundary points of a range whose
    ends are in text nodes. *)
Definition plainText (doc : Node) (r : Content.Range) : ustring :=
  let a := Content.startContainer r in
  let b := Content.endContainer r in
  if decide (a = b) then substring (dataOf doc a) (Content.startOffset r) (Content.endOffset r)
  else drop (Z.to_nat (Content.startOffset r)) (dataOf doc a)
       ++ concat (map (dataOf doc) (upTo b (followingTextNodes doc a)))
       ++ take (Z.to_nat (Content.endOffset r)) (dataOf doc b).

(** A browser showing [page] in a 1280 by 720 window; the popup is laid
    out [width] wide and 80 high. *)
Definition browser (width : Z) : Content.Browser :=
  {| Content.document := page;
     Content.caretApi := Content.CaretPositionFromPoint;
     Content.isTopWindow := true;
     Content.rangeText := plainText page;
     Content.offsetWidth := λ _, width;
     Content.offsetHeight := λ _, 80%Z;
     Content.innerWidth := 1280;
     Content.innerHeight := 720;
     Content.scrollX := 0;
     Content.scrollY := 0 |}.

(** The pointer over the paragraph, the caret at [offset_] of its first
    text node. *)
Definition hover (offset_ x y : Z) : Content.Event :=
  Content.MouseMoved {| Content.target := paragraph; Content.clientX := x;
                        Content.clientY := y; Content.caret := Some (firstText, offset_) |}.

Definition message (type : string) : Request.t :=
  {| Request.type := type; Request.text := []; Request.originalText := [];
     Request.selStartOffset := 0 |}.

(** What the background answers to the [k]-th request sent so far. *)
Definition answer (s : Content.State) (k : nat) : option Response.t :=
  match Content.sent s !! k with
  | Some request =>
      match Background.onMessage mypy request with
      | Background.Returned (Some response) _ => response
      | _ => None
      end
  | None => None
  end.

(** One hover, up to the moment the debounce timer is armed. *)
Definition pendingLookup : Content.State :=
  Content.run (browser 300)
    [Content.MessageReceived (message "enable"); hover 0 100 100] Content.initial.

(** A hover whose request went out, followed by a move to 中. *)
Definition movedOn : Content.State :=
  Content.run (browser 300)
    [Content.MessageReceived (message "enable"); hover 0 100 100; Content.TimerFired 1;
     hover 3 160 100] Content.initial.

(** The answer to the request sent for the first hover of [movedOn]. *)
Definition lateResponse : Response.t :=
  {| Response.data := [nihao]; Response.matchLen := 2;
     Response.originalText := [ni; hao; ma; zhong; guo; ren; min];
     Response.selStartOffset := 0 |}.

(** The reader selects 中国 after the script has highlighted 你好. *)
Definition readerRange : Content.Range :=
  {| Content.startContainer := firstText; Content.startOffset := 3;
     Content.endContainer := firstText; Content.endOffset := 5 |}.

Definition readerSelected : Content.State :=
  Content.set_selection (Some readerRange)
    (Content.run (browser 300)
       [Content.MessageReceived (message "enable"); hover 0 100 100; Content.TimerFired 1;
        Content.ResponseReceived (Some lateResponse)] Content.initial).

(** A page where the highlighted word occurs twice,
    [<p>你好你好</p>]; the script has highlighted the first 你好 and the
    reader then selects the second. *)
Definition echoPage : Node :=
  Element "#document" false
    [Element "HTML" false
       [Element "BODY" false [Element "P" false [Text [ni; hao; ni; hao]]]]].

Definition echoBrowser : Content.Browser :=
  {| Content.document := echoPage;
     Content.caretApi := Content.CaretPositionFromPoint;
     Content.isTopWindow := true;
     Content.rangeText := plainText echoPage;
     Content.offsetWidth := λ _, 300%Z;
     Content.offsetHeight := λ _, 80%Z;
     Content.innerWidth := 1280;
     Content.innerHeight := 720;
     Content.scrollX := 0;
     Content.scrollY := 0 |}.

Definition echoResponse : Response.t :=
  {| Response.data := [nihao]; Response.matchLen := 2;
     Response.originalText := [ni; hao; ni; hao]; Response.selStartOffset := 0 |}.

Definition echoHighlighted : Content.State :=
  Content.run echoBrowser
    [Content.MessageReceived (message "enable"); hover 0 100 100; Content.TimerFired 1;
     Content.ResponseReceived (Some echoResponse)] Content.initial.

Definition ownRange : Content.Range :=
  {| Content.startContainer := firstText; Content.startOffset := 0;
     Content.endContainer := firstText; Content.endOffset := 2 |}.

Definition echoRange : Content.Range :=
  {| Content.startContainer := firstText; Content.startOffset := 2;
     Content.endContainer := firstText; Content.endOffset := 4 |}.

Definition echoSelected : Content.State :=
  Content.set_selection (Some echoRange) echoHighlighted.

(** A page as some editors produce it: the literal [&zwnj] followed by
    a real U+200C and 中. *)
Definition editorText : ustring := lit "&zwnj" ++ [Content.zwnj; zhong].

Definition editorPage : Node :=
  Element "#document" false
    [Element "HTML" false [Element "BODY" false [Element "P" false [Text editorText]]]].

Definition editorBrowser : Content.Browser :=
  {| Content.document := editorPage;
     Content.caretApi := Content.CaretPositionFromPoint;
     Content.isTopWindow := true;
     Content.rangeText := plainText editorPage;
     Content.offsetWidth := λ _, 300%Z;
     Content.offsetHeight := λ _, 80%Z;
     Content.innerWidth := 1280;
     Content.innerHeight := 720;
     Content.scrollX := 0;
     Content.scrollY := 0 |}.

Definition overEditorText : Content.State :=
  Content.set_savedTextNode (Some firstText)
    (Content.set_savedOffset 0 (Content.set_savedTarget (Some paragraph) Content.initial)).

End Sample.

(** ** Notions used to state further properties of the code *)

Module Reading.

(** The nodes of [l] before [stop]. *)
Fixpoint before (stop : NodeRef) (l : list NodeRef) : list NodeRef :=
  match l with
  | [] => []
  | p :: l' => if decide (p = stop) then [] else p :: before stop l'
  end.

(** The characters a range contains when both its boundary points are in
    text nodes: from the start offset to the end offset in one node, or
    the rest of the start node, every text node in between in document
    order, and the beginning of the end node. *)
Definition textOfRange (doc : Node) (r : Content.Range) : ustring :=
  let a := Content.startContainer r in
  let b := Content.endContainer r in
  if decide (a = b) then substring (dataOf doc a) (Content.startOffset r) (Content.endOffset r)
  else drop (Z.to_nat (Content.startOffset r)) (dataOf doc a)
       ++ concat (map (dataOf doc) (before b (followingTextNodes doc a)))
       ++ take (Z.to_nat (Content.endOffset r)) (dataOf doc b).

End Reading.

Module Frame.
Import Content.

(** A computation leaves a part of the state as it found it, however it
    ends. *)
Definition Unchanged {A B} (part : State → B) (m : M A) : Prop :=
  ∀ s o s', m s = (o, s') → part s' = part s.

(** A computation keeps a property of the state, however it ends. *)
Definition Preserves {A} (P : State → Prop) (m : M A) : Prop :=
  ∀ s o s', P s → m s = (o, s') → P s'.

(** Started in a state with [P], a computation ends, however it ends,
    in a state with [Q]. *)
Definition Triple {A} (P : State → Prop) (m : M A) (Q : State → Prop) : Prop :=
  ∀ s o s', P s → m s = (o, s') → Q s'.

(** The timer bookkeeping: the [timer] variable, the armed timeouts and
    the next identifier the browser hands out. *)
Definition timers (s : State) : option nat * list nat * nat :=
  (timer s, timeouts s, nextTimeout s).

(** At most one timeout is armed, and it is the one [timer] holds. *)
Definition onePending (s : State) : Prop :=
  1 ≤ nextTimeout s
  ∧ (timeouts s = [] ∨ ∃ id, timeouts s = [id] ∧ timer s = Some id ∧ 1 ≤ id).

(** No timeout is armed. *)
Definition nonePending (s : State) : Prop := 1 ≤ nextTimeout s ∧ timeouts s = [].

(** The number of timeouts that fire in a sequence of events. *)
Fixpoint firings (evs : list Event) : nat :=
  match evs with
  | [] => 0
  | TimerFired _ :: evs' => S (firings evs')
  | _ :: evs' => firings evs'
  end.

(** The selection is one [clearHighlight] and [highlightMatch] treat as
    the script's own: collapsed, or reading as the recorded [selText]. *)
Definition ownSelection (env : Browser) (s : State) : Prop :=
  isCollapsed (selection s) = true
  ∨ selTextIs (selText s) (selectionToString env (selection s)) = true.

End Frame.

(** * Properties *)

Section seek_facts.
Implicit Types (l it : list NodeRef) (x y : NodeRef).

Lemma seek_Some it x r :
  seek it x = Some r ↔ ∃ l, it = l ++ x :: r ∧ x ∉ l.
Proof.
  revert r. induction it as [|n it IH]; intros r; simpl.
  - split; [done|]. intros ([|??] & ? & ?); done.
  - case_decide as Hn; subst.
    + split.
      * intros [= <-]. exists []. split; [done|]. apply not_elem_of_nil.
      * intros ([|y l] & Heq & Hnot); simplify_eq/=; [done|].
        exfalso. apply Hnot. left.
    + rewrite IH. split.
      * intros (l & -> & Hnot). exists (n :: l). split; [done|].
        rewrite not_elem_of_cons. done.
      * intros ([|y l] & Heq & Hnot); injection Heq as -> ->; [done|].
        exists l. split; [done|]. rewrite not_elem_of_cons in Hnot. tauto.
Qed.

Lemma seek_None it x : seek it x = None ↔ x ∉ it.
Proof.
  induction it as [|n it IH]; simpl.
  - split; [intros _; apply not_elem_of_nil|done].
  - case_decide; subst.
    + split; [done|]. intros H. exfalso. apply H. left.
    + rewrite IH, not_elem_of_cons. split; [by split|by intros [_ ?]].
Qed.

Lemma seek_app_l l1 l2 x r :
  seek l1 x = Some r → seek (l1 ++ l2) x = Some (r ++ l2).
Proof.
  rewrite !seek_Some. intros (l & -> & Hnot). exists l.
  split; [|done]. by rewrite <- app_assoc.
Qed.

Lemma seek_app_r l1 l2 x : x ∉ l1 → seek (l1 ++ l2) x = seek l2 x.
Proof.
  induction l1 as [|n l1 IH]; [done|]. rewrite not_elem_of_cons.
  intros [Hne Hnot]. simpl. case_decide; [congruence|]. auto.
Qed.

Lemma seek_next it x y r :
  NoDup it → seek it x = Some (y :: r) → seek it y = Some r.
Proof.
  intros Hnd (l & -> & Hnot)%seek_Some.
  apply seek_Some. exists (l ++ [x]). split; [by rewrite <- app_assoc|].
  apply NoDup_app in Hnd as (_ & Hdis & Hnd').
  apply NoDup_cons in Hnd' as (Hx & Hnd').
  apply NoDup_cons in Hnd' as (Hy & _).
  rewrite not_elem_of_app, list_elem_of_singleton. split.
  - intros Hin. apply (Hdis _ Hin). right. left.
  - intros ->. apply Hx. left.
Qed.

End seek_facts.

(** ** Document order *)

Section document_order.
Implicit Types (n k doc : Node) (ks : list Node) (p q here x : NodeRef).

Lemma texts_Element nm f ks here :
  texts (Element nm f ks) here = kidsTexts here ks 0.
Proof.
  simpl. generalize 0. induction ks as [|k ks IH]; intros i; simpl; [done|].
  by rewrite IH.
Qed.

Lemma descend_app n r1 r2 :
  descend n (r1 ++ r2) = descend n r1 ≫= λ m, descend m r2.
Proof.
  revert n. induction r1 as [|i r1 IH]; intros n; simpl; [done|].
  destruct n as [|nm f ks]; [done|]. destruct (ks !! i); [apply IH|done].
Qed.

Lemma nodeAt_cons doc i p :
  nodeAt doc (i :: p) =
  nodeAt doc p ≫= λ m, match m with
                       | Text _ => None
                       | Element _ _ ks => ks !! i
                       end.
Proof.
  unfold nodeAt. simpl. rewrite descend_app.
  destruct (descend doc (rev p)) as [[|nm f ks]|]; simpl; [done| |done].
  by destruct (ks !! i).
Qed.

Lemma nodeAt_child doc i p n :
  nodeAt doc (i :: p) = Some n →
  ∃ nm f ks, nodeAt doc p = Some (Element nm f ks) ∧ ks !! i = Some n.
Proof.
  rewrite nodeAt_cons. destruct (nodeAt doc p) as [[|nm f ks]|]; simpl; [done| |done].
  intros H. by exists nm, f, ks.
Qed.

(** Every text node found below [here] has [here] as an ancestor. *)
Lemma texts_below n here x : x ∈ texts n here → ∃ q, x = q ++ here.
Proof.
  revert here x. induction n as [data|nm f ks IH] using Node_nested_ind; intros here x.
  - simpl. rewrite list_elem_of_singleton. intros ->. by exists [].
  - rewrite texts_Element. generalize 0.
    induction ks as [|k ks IHks]; intros i; simpl.
    + by intros ?%not_elem_of_nil.
    + apply Forall_cons in IH as [IHk IH]. rewrite elem_of_app. intros [Hx|Hx].
      * apply IHk in Hx as [q ->]. exists (q ++ [i]). by rewrite <- app_assoc.
      * by apply (IHks IH (S i)).
Qed.

Lemma kidsTexts_below here ks i x :
  x ∈ kidsTexts here ks i → ∃ q j, x = q ++ j :: here ∧ i ≤ j.
Proof.
  revert i. induction ks as [|k ks IH]; intros i; simpl.
  - by intros ?%not_elem_of_nil.
  - rewrite elem_of_app. intros [Hx|Hx].
    + apply texts_below in Hx as [q ->]. by exists q, i.
    + apply IH in Hx as (q & j & -> & Hj). exists q, j. split; [done|lia].
Qed.

Lemma below_index q1 q2 i j here : q1 ++ i :: here = q2 ++ j :: here → i = j.
Proof.
  intros H. apply app_inj_2 in H; [|done]. by destruct H as [_ [= ->]].
Qed.

Lemma texts_NoDup n here : NoDup (texts n here).
Proof.
  revert here. induction n as [data|nm f ks IH] using Node_nested_ind; intros here.
  - simpl. apply NoDup_singleton.
  - rewrite texts_Element. generalize 0.
    induction ks as [|k ks IHks]; intros i; simpl; [apply NoDup_nil_2|].
    apply Forall_cons in IH as [IHk IH]. apply NoDup_app. split_and!; [apply IHk| |by apply IHks].
    intros x [q ->]%texts_below (q' & j & Heq & Hj)%kidsTexts_below.
    apply below_index in Heq. lia.
Qed.

(** The iterator of a node splits around the iterator of each child. *)
Lemma kidsTexts_split here ks i j k :
  ks !! j = Some k →
  ∃ A B, kidsTexts here ks i = A ++ texts k ((i + j) :: here) ++ B
         ∧ ∀ x, x ∈ texts k ((i + j) :: here) → x ∉ A.
Proof.
  revert i j. induction ks as [|k0 ks IH]; intros i j; [done|].
  destruct j as [|j]; simpl.
  - intros [= ->]. exists [], (kidsTexts here ks (S i)).
    rewrite Nat.add_0_r. split; [done|]. intros x _. apply not_elem_of_nil.
  - intros Hk. destruct (IH (S i) j Hk) as (A & B & Heq & Hnot).
    replace (i + S j) with (S i + j) by lia.
    exists (texts k0 (i :: here) ++ A), B. split.
    + by rewrite Heq, <- app_assoc.
    + intros x Hx. rewrite not_elem_of_app. split; [|by apply Hnot].
      intros [q' Heq']%texts_below. apply texts_below in Hx as [q ->].
      apply below_index in Heq'. lia.
Qed.

(** [findNextTextNodeFrom] started at any ancestor of a text node returns
    its successor in document order. *)
Lemma findNextTextNodeFrom_order doc root :
  is_Some (nodeAt doc root) →
  ∃ A B, documentTexts doc = A ++ createNodeIterator doc root ++ B
    ∧ ∀ previous, previous ∈ createNodeIterator doc root →
        (previous ∉ A)
        ∧ findNextTextNodeFrom doc root previous
          = seek (documentTexts doc) previous ≫= head.
Proof.
  induction root as [|i p IH]; intros [n Hn].
  - exists [], []. unfold createNodeIterator, documentTexts in *.
    rewrite Hn. unfold nodeAt in Hn. simpl in Hn. injection Hn as <-.
    rewrite app_nil_r. split; [done|]. intros previous Hin.
    split; [apply not_elem_of_nil|]. simpl.
    unfold createNodeIterator, nodeAt. simpl.
    destruct (seek (texts doc []) previous) as [[|y r]|]; done.
  - destruct (nodeAt_child _ _ _ _ Hn) as (nm & f & ks & Hp & Hk).
    destruct (IH (ex_intro _ _ Hp)) as (A & B & HG & Hprev).
    destruct (kidsTexts_split p ks 0 i n Hk) as (A' & B' & Hsplit & HnotA').
    simpl in Hsplit, HnotA'.
    assert (Hitp : createNodeIterator doc p = A' ++ texts n (i :: p) ++ B').
    { unfold createNodeIterator. by rewrite Hp, texts_Element. }
    assert (Hiti : createNodeIterator doc (i :: p) = texts n (i :: p)).
    { unfold createNodeIterator. by rewrite Hn. }
    exists (A ++ A'), (B' ++ B). split.
    { rewrite HG, Hitp, Hiti. by rewrite <- !app_assoc. }
    intros previous Hin. rewrite Hiti in Hin.
    assert (Hinp : previous ∈ createNodeIterator doc p).
    { rewrite Hitp, !elem_of_app. auto. }
    destruct (Hprev previous Hinp) as [HnotA Hfind].
    split; [rewrite not_elem_of_app; auto|].
    simpl. rewrite Hfind, Hiti.
    destruct (seek (texts n (i :: p)) previous) as [r|] eqn:Hseek.
    + assert (seek (documentTexts doc) previous = Some (r ++ B' ++ B)) as ->.
      { rewrite HG, Hitp, seek_app_r by done.
        rewrite <- app_assoc, seek_app_r by auto.
        rewrite <- app_assoc. by apply seek_app_l. }
      by destruct r.
    + apply seek_None in Hseek. done.
Qed.

Lemma nodeAt_parent doc i p n :
  nodeAt doc (i :: p) = Some n → is_Some (nodeAt doc p).
Proof. intros (?&?&?&->&_)%nodeAt_child. eauto. Qed.

(** A text node belongs to the iterator of each of its ancestors; here:
    of itself and of its parent. *)
Lemma text_in_own_iterator doc p data :
  nodeAt doc p = Some (Text data) → createNodeIterator doc p = [p].
Proof. intros H. unfold createNodeIterator. by rewrite H. Qed.

Lemma kidsTexts_elem here ks i j k x :
  ks !! j = Some k → x ∈ texts k ((i + j) :: here) → x ∈ kidsTexts here ks i.
Proof.
  intros Hk Hx. destruct (kidsTexts_split here ks i j k Hk) as (A & B & -> & _).
  rewrite !elem_of_app. auto.
Qed.

Lemma text_in_parent_iterator doc i p data :
  nodeAt doc (i :: p) = Some (Text data) → (i :: p) ∈ createNodeIterator doc p.
Proof.
  intros H. destruct (nodeAt_child _ _ _ _ H) as (nm & f & ks & Hp & Hk).
  unfold createNodeIterator. rewrite Hp, texts_Element.
  apply (kidsTexts_elem p ks 0 i _ _ Hk). simpl. left.
Qed.

Lemma text_in_document doc p data :
  nodeAt doc p = Some (Text data) → p ∈ documentTexts doc.
Proof.
  intros H. destruct (findNextTextNodeFrom_order doc p) as (A & B & -> & _); [eauto|].
  rewrite (text_in_own_iterator _ _ _ H), !elem_of_app, list_elem_of_singleton. auto.
Qed.

(** The source's call [findNextTextNode(node.parentNode, node)] on a text
    node yields the next text node of the document, or null at the end. *)
Lemma findNextTextNode_next doc p data :
  nodeAt doc p = Some (Text data) →
  findNextTextNode doc (parentNode p) p = head (followingTextNodes doc p).
Proof.
  intros H. pose proof (text_in_document _ _ _ H) as Hdoc.
  assert (∃ r, seek (documentTexts doc) p = Some r) as [r Hr].
  { destruct (seek (documentTexts doc) p) eqn:E; [eauto|]. by apply seek_None in E. }
  unfold followingTextNodes. rewrite Hr. simpl.
  destruct p as [|i p]; simpl.
  - (* the document itself is a text node: it is its only text *)
    unfold documentTexts, nodeAt in *. simpl in H. injection H as ->.
    simpl in Hr. by injection Hr as <-.
  - destruct (findNextTextNodeFrom_order doc p (nodeAt_parent _ _ _ _ H))
      as (A & B & _ & Hprev).
    destruct (Hprev (i :: p) (text_in_parent_iterator _ _ _ _ H)) as [_ ->].
    by rewrite Hr.
Qed.

Lemma documentTexts_are_texts doc p :
  p ∈ documentTexts doc → ∃ data, nodeAt doc p = Some (Text data).
Proof.
  unfold documentTexts, nodeAt.
  assert (∀ n here x, x ∈ texts n here →
            ∃ route data, x = rev route ++ here ∧ descend n route = Some (Text data)) as Hgen.
  { induction n as [data|nm f ks IH] using Node_nested_ind; intros here x.
    - simpl. rewrite list_elem_of_singleton. intros ->. by exists [], data.
    - rewrite texts_Element.
      assert (∀ i, x ∈ kidsTexts here ks i →
                ∃ j k route data, ks !! j = Some k ∧ x = rev route ++ (i + j) :: here
                                  ∧ descend k route = Some (Text data)) as Hks.
      { induction ks as [|k ks IHks]; intros i; simpl.
        - by intros ?%not_elem_of_nil.
        - apply Forall_cons in IH as [IHk IH]. rewrite elem_of_app. intros [Hx|Hx].
          + apply IHk in Hx as (route & data & -> & Hd).
            exists 0, k, route, data. by rewrite Nat.add_0_r.
          + apply (IHks IH) in Hx as (j & k' & route & data & Hk' & -> & Hd).
            exists (S j), k', route, data. split_and!; [done| |done].
            by replace (i + S j) with (S i + j) by lia. }
      intros (j & k & route & data & Hk & -> & Hd)%Hks.
      exists (j :: route), data. simpl. rewrite Hk. split; [|done].
      by rewrite <- app_assoc. }
  intros (route & data & -> & Hd)%Hgen. exists data.
  by rewrite app_nil_r, rev_involutive.
Qed.

End document_order.

(** ** The span collector *)

Section collector.
Implicit Types (doc : Node) (p : NodeRef) (s d text : ustring) (l : list SelEnd).

Lemma substring_take_drop s a b :
  (0 ≤ a ≤ b)%Z → (b ≤ jslength s)%Z →
  substring s a b = take (Z.to_nat (b - a)) (drop (Z.to_nat a) s).
Proof.
  intros Ha Hb. unfold substring, clamp.
  replace (Z.max 0 (Z.min a (jslength s))) with a by lia.
  replace (Z.max 0 (Z.min b (jslength s))) with b by lia.
  by replace (Z.max a b - Z.min a b)%Z with (b - a)%Z by lia;
     replace (Z.min a b) with a by lia.
Qed.

Lemma substring_length s a b :
  (0 ≤ a ≤ b)%Z → (b ≤ jslength s)%Z → jslength (substring s a b) = (b - a)%Z.
Proof.
  intros Ha Hb. rewrite substring_take_drop by done. unfold jslength in *.
  rewrite length_take, length_drop. lia.
Qed.

Lemma jslength_app s1 s2 : jslength (s1 ++ s2) = (jslength s1 + jslength s2)%Z.
Proof. unfold jslength. rewrite length_app. lia. Qed.

Lemma jslength_nonneg s : (0 ≤ jslength s)%Z.
Proof. unfold jslength. lia. Qed.

Lemma dataOf_text doc p data : nodeAt doc p = Some (Text data) → dataOf doc p = data.
Proof. intros H. unfold dataOf, nodeData. by rewrite H. Qed.

Lemma collectFrom_nonpos doc budget R :
  (budget ≤ 0)%Z → collectFrom doc budget R = ([], []).
Proof.
  intros Hb. destruct R as [|p R]; [done|]. simpl.
  destruct (0 <? budget)%Z eqn:E; [lia|done].
Qed.

(** The loop agrees with the document-order view, and never runs out of
    fuel when given more fuel than there are text nodes left. *)
Lemma getTextLoop_collectFrom doc n fuel R text l p data :
  NoDup (documentTexts doc) →
  nodeAt doc p = Some (Text data) →
  seek (documentTexts doc) p = Some R →
  length R < fuel →
  getTextLoop fuel doc n text l p
  = Some (text ++ (collectFrom doc (n - jslength text) R).1,
          l ++ (collectFrom doc (n - jslength text) R).2).
Proof.
  intros Hnd. revert R text l p data.
  induction fuel as [|fuel IH]; intros R text l p data Hp Hseek Hfuel; [lia|].
  simpl. destruct (jslength text <? n)%Z eqn:Hlt.
  - rewrite (findNextTextNode_next _ _ _ Hp). unfold followingTextNodes.
    rewrite Hseek. simpl. destruct R as [|y R]; simpl.
    + by rewrite !app_nil_r.
    + assert (y ∈ documentTexts doc) as [dy Hy]%documentTexts_are_texts.
      { apply seek_Some in Hseek as (l1 & -> & _). rewrite !elem_of_app, !elem_of_cons. auto. }
      unfold getTextFromSingleNode. rewrite Hy.
      replace (0 <? n - jslength text)%Z with true by lia.
      rewrite (dataOf_text _ _ _ Hy).
      set (e := Z.min (n - jslength text) (jslength dy)).
      rewrite (IH R _ _ y dy Hy (seek_next _ _ _ _ Hnd Hseek)) by (simpl in Hfuel; lia).
      rewrite jslength_app, substring_length by (pose proof (jslength_nonneg dy); lia).
      replace (n - (jslength text + (e - 0)))%Z with (n - jslength text - e)%Z by lia.
      destruct (collectFrom doc (n - jslength text - e) R) as [t l'].
      simpl. by rewrite <- !app_assoc.
  - rewrite collectFrom_nonpos by lia. simpl. by rewrite !app_nil_r.
Qed.

Lemma collectFrom_text doc budget R :
  (0 ≤ budget)%Z →
  (collectFrom doc budget R).1 = take (Z.to_nat budget) (concat (map (dataOf doc) R)).
Proof.
  revert budget. induction R as [|p R IH]; intros budget Hb; simpl.
  - by rewrite take_nil.
  - destruct (0 <? budget)%Z eqn:Hpos.
    + pose proof (jslength_nonneg (dataOf doc p)) as Hd.
      set (e := Z.min budget (jslength (dataOf doc p))) in *.
      specialize (IH (budget - e)%Z ltac:(lia)).
      destruct (collectFrom doc (budget - e) R) as [t l']. simpl in *.
      rewrite IH, substring_take_drop by lia. rewrite take_app. simpl. f_equal.
      * rewrite Z.sub_0_r. change (Z.to_nat 0) with 0. rewrite drop_0.
        unfold e, jslength.
        destruct (decide (budget ≤ Z.of_nat (length (dataOf doc p)))%Z).
        -- f_equal. lia.
        -- rewrite (take_ge _ (Z.to_nat budget)) by lia. apply take_ge. lia.
      * f_equal. unfold e, jslength. lia.
    + simpl. replace (Z.to_nat budget) with 0 by lia. done.
Qed.

Lemma collectFrom_offsets doc budget R :
  Forall (λ e, 0 ≤ offset e ≤ jslength (dataOf doc (node e)))%Z (collectFrom doc budget R).2
  ∧ offsetSum (collectFrom doc budget R).2 = jslength (collectFrom doc budget R).1
  ∧ map node (collectFrom doc budget R).2 `prefix_of` R.
Proof.
  revert budget. induction R as [|p R IH]; intros budget; simpl.
  - split_and!; [constructor|done|done].
  - destruct (0 <? budget)%Z eqn:Hpos; [|split_and!; [constructor|done|apply prefix_nil]].
    pose proof (jslength_nonneg (dataOf doc p)) as Hd.
    set (e := Z.min budget (jslength (dataOf doc p))) in *.
    destruct (IH (budget - e)%Z) as (Hall & Hsum & Hpre).
    destruct (collectFrom doc (budget - e) R) as [t l']. simpl in *. split_and!.
    + constructor; [simpl; lia|done].
    + rewrite Hsum, jslength_app, substring_length by lia. lia.
    + by apply prefix_cons.
Qed.

End collector.

Section getText_facts.
Variables (doc : Node) (startNode : NodeRef) (data : ustring) (offset_ n : Z).
Hypothesis Hstart : nodeAt doc startNode = Some (Text data).
Hypothesis Hoffset : (0 ≤ offset_ < jslength data)%Z.
Hypothesis Hn : (0 ≤ n)%Z.

Let endIndex := Z.min (jslength data) (offset_ + n).
Let first := substring data offset_ endIndex.
Let rest := collectFrom doc (n - jslength first) (followingTextNodes doc startNode).

Lemma getText_first_length : jslength first = (endIndex - offset_)%Z.
Proof. unfold first. apply substring_length; unfold endIndex; lia. Qed.

(** [getText] returns, and what it returns is the start node's share
    followed by the contribution of the following text nodes. *)
Lemma getText_unfold l0 :
  getText doc startNode offset_ l0 n
  = Some (first ++ rest.1, l0 ++ {| node := startNode; offset := endIndex |} :: rest.2).
Proof.
  unfold getText. rewrite Hstart. fold endIndex first.
  pose proof (text_in_document _ _ _ Hstart) as Hin.
  destruct (seek (documentTexts doc) startNode) as [R|] eqn:Hseek;
    [|by apply seek_None in Hseek].
  rewrite (getTextLoop_collectFrom doc n _ R _ _ startNode data); try done.
  - unfold rest, followingTextNodes. rewrite Hseek. simpl.
    by rewrite <- app_assoc.
  - apply texts_NoDup.
  - apply seek_Some in Hseek as (l1 & Heq & _). rewrite Heq, length_app. simpl. lia.
Qed.

Lemma getText_text l0 text l :
  getText doc startNode offset_ l0 n = Some (text, l) →
  text = take (Z.to_nat n) (remainingText doc startNode offset_).
Proof.
  rewrite getText_unfold. intros [= <- _].
  pose proof getText_first_length as Hlen.
  unfold rest. rewrite collectFrom_text by (unfold endIndex in Hlen; lia).
  unfold remainingText. rewrite (dataOf_text _ _ _ Hstart), take_app, length_drop.
  f_equal.
  - unfold first. rewrite substring_take_drop by (unfold endIndex; lia).
    unfold endIndex, jslength in *.
    destruct (decide (offset_ + n ≤ Z.of_nat (length data))%Z).
    + f_equal. lia.
    + rewrite (take_ge _ (Z.to_nat n)) by (rewrite length_drop; lia).
      apply take_ge. rewrite length_drop. lia.
  - f_equal. rewrite Hlen. unfold endIndex, jslength in *. lia.
Qed.

Lemma getText_checkpoints l0 text l :
  getText doc startNode offset_ l0 n = Some (text, l) →
  ∃ l', l = l0 ++ l'
    ∧ Forall (λ e, isTextNode doc (node e) = true
                   ∧ (0 ≤ offset e ≤ nodeLength doc (node e))%Z) l'
    ∧ (offsetSum l' - offset_)%Z = jslength text
    ∧ map node l' `prefix_of` startNode :: followingTextNodes doc startNode
    ∧ ∃ e0 l'', l' = e0 :: l'' ∧ (offset_ ≤ offset e0)%Z
                ∧ Forall (λ e, 0 ≤ offset e)%Z l''.
Proof.
  rewrite getText_unfold. intros [= <- <-].
  destruct (collectFrom_offsets doc (n - jslength first) (followingTextNodes doc startNode))
    as (Hall & Hsum & Hpre). fold rest in Hall, Hsum, Hpre.
  eexists. split; [done|]. split_and!.
  - constructor.
    + unfold isTextNode, nodeLength. simpl. rewrite Hstart. unfold endIndex. split; [done|lia].
    + apply Forall_forall. intros e He.
      assert (node e ∈ documentTexts doc) as [d Hd]%documentTexts_are_texts.
      { assert (node e ∈ followingTextNodes doc startNode) as Hin.
        { eapply elem_of_prefix; [|done]. by apply list_elem_of_fmap_2. }
        unfold followingTextNodes in Hin.
        destruct (seek (documentTexts doc) startNode) as [R|] eqn:Hseek; simpl in Hin;
          [|by apply not_elem_of_nil in Hin].
        apply seek_Some in Hseek as (l1 & -> & _). rewrite !elem_of_app, elem_of_cons. auto. }
      rewrite Forall_forall in Hall. specialize (Hall e He). simpl in Hall.
      rewrite (dataOf_text _ _ _ Hd) in Hall.
      unfold isTextNode, nodeLength. by rewrite Hd.
  - simpl. rewrite Hsum, jslength_app, getText_first_length. lia.
  - simpl. by apply prefix_cons.
  - eexists _, _. split; [done|]. simpl. split; [unfold endIndex; lia|].
    eapply Forall_impl; [exact Hall|]. simpl. intros; lia.
Qed.

End getText_facts.

(** The [for] loop of [highlightMatch] stops inside the list whenever the
    end position does not exceed what the list covers. *)
Lemma selEndLoop_in_range (l : list SelEnd) (prev : option SelEnd) (target : Z) :
  l ≠ [] →
  Forall (λ e, 0 ≤ offset e)%Z l →
  (0 ≤ target ≤ offsetSum l)%Z →
  ∃ e off, selEndLoop l prev target = (Some e, off) ∧ e ∈ l ∧ (0 ≤ off ≤ offset e)%Z.
Proof.
  revert prev target. induction l as [|e l IH]; intros prev target Hne Hall Ht; [done|].
  apply Forall_cons in Hall as [He Hall]. simpl in *.
  destruct (target <=? offset e)%Z eqn:Hle.
  - exists e, target. split; [done|]. split; [left|lia].
  - destruct l as [|e' l].
    + simpl in Ht. lia.
    + destruct (IH (Some e) (target - offset e)%Z) as (e1 & off & -> & Hin & Hoff);
        [done|done|lia|].
      exists e1, off. split; [done|]. split; [by right|done].
Qed.

(** ** Budget, checkpoints and projection *)

(** C3.  For a text start node, an offset inside it and a budget of
    [n] code units, [getText] returns; the buffer is the first [n] code
    units of the text that runs from the start position through the
    following text nodes of the document, so it has at most [n] code
    units, and when it has fewer it is all the text there was. *)
Theorem getText_respects_budget (doc : Node) (startNode : NodeRef) (data : ustring)
    (offset_ : Z) (n : nat) (selEndList : list SelEnd) :
  nodeAt doc startNode = Some (Text data) →
  (0 ≤ offset_ < jslength data)%Z →
  ∃ text l,
    getText doc startNode offset_ selEndList (Z.of_nat n) = Some (text, l)
    ∧ text = take n (remainingText doc startNode offset_)
    ∧ length text ≤ n
    ∧ length text = Nat.min n (length (remainingText doc startNode offset_))
    ∧ (length text < n → text = remainingText doc startNode offset_).
Proof.
  intros Hstart Hoff.
  pose proof (getText_unfold doc startNode data offset_ (Z.of_nat n) Hstart selEndList)
    as Hget.
  eexists _, _. split; [exact Hget|].
  pose proof (getText_text doc startNode data offset_ (Z.of_nat n) Hstart Hoff
                ltac:(lia) _ _ _ Hget) as Htext.
  rewrite Nat2Z.id in Htext.
  split; [exact Htext|]. rewrite Htext, length_take.
  split; [lia|]. split; [lia|]. intros Hlt. apply take_ge. lia.
Qed.

Lemma getText_respects_budget_witness :
  ∃ text l,
    getText Sample.page Sample.firstText 3 [] (Z.of_nat 7) = Some (text, l)
    ∧ text = take 7 (remainingText Sample.page Sample.firstText 3)
    ∧ length text ≤ 7
    ∧ length text = Nat.min 7 (length (remainingText Sample.page Sample.firstText 3))
    ∧ (length text < 7 → text = remainingText Sample.page Sample.firstText 3).
Proof.
  apply (getText_respects_budget Sample.page Sample.firstText
           [Sample.ni; Sample.hao; Sample.ma; Sample.zhong; Sample.guo] 3 7 []).
  - reflexivity.
  - vm_compute. split; [discriminate|reflexivity].
Defined.

(** From 吗 the document has only four code units left: the buffer is
    shorter than the budget of seven. *)
Example getText_runs_out :
  getText Sample.page Sample.firstText 3 [] 7
  = Some ([Sample.zhong; Sample.guo; Sample.ren; Sample.min],
          [{| node := Sample.firstText; offset := 5 |};
           {| node := Sample.boldText; offset := 2 |}]).
Proof. reflexivity. Qed.

Example getText_sample :
  getText Sample.page Sample.firstText 0 [] 7
  = Some ([Sample.ni; Sample.hao; Sample.ma; Sample.zhong; Sample.guo; Sample.ren; Sample.min],
          [{| node := Sample.firstText; offset := 5 |};
           {| node := Sample.boldText; offset := 2 |}]).
Proof. reflexivity. Qed.

(** C4, as the code has it.  Each checkpoint of [getText] records the end
    offset inside its own text node, [0 ≤ offset ≤ length], not a running
    total; the nodes follow document order from the start node; the
    offsets, less the start offset, add up to the length of the buffer;
    and projecting any [matchLength ≤ len(buffer)] through the list
    stops at one of its entries with an end offset between 0 and the
    offset recorded for that entry. *)
Theorem getText_checkpoints_project (doc : Node) (startNode : NodeRef) (data : ustring)
    (offset_ : Z) (n : nat) (text : ustring) (l : list SelEnd) :
  nodeAt doc startNode = Some (Text data) →
  (0 ≤ offset_ < jslength data)%Z →
  getText doc startNode offset_ [] (Z.of_nat n) = Some (text, l) →
  Forall (λ e, isTextNode doc (node e) = true
               ∧ (0 ≤ offset e ≤ nodeLength doc (node e))%Z) l
  ∧ (offsetSum l - offset_)%Z = jslength text
  ∧ map node l `prefix_of` startNode :: followingTextNodes doc startNode
  ∧ ∀ matchLength : nat, matchLength ≤ length text →
      ∃ e off, projectEnd offset_ (Z.of_nat matchLength) l = Some (node e, off)
               ∧ e ∈ l ∧ (0 ≤ off ≤ offset e)%Z ∧ (off ≤ nodeLength doc (node e))%Z.
Proof.
  intros Hstart Hoff Hget.
  destruct (getText_checkpoints doc startNode data offset_ (Z.of_nat n) Hstart Hoff
              ltac:(lia) _ _ _ Hget)
    as (l' & -> & Hall & Hsum & Hpre & e0 & l'' & -> & He0 & Hpos).
  simpl app in *. split_and!; [done|done|done|].
  intros m Hm. unfold projectEnd.
  destruct (selEndLoop_in_range (e0 :: l'') None (offset_ + Z.of_nat m))
    as (e & off & -> & Hin & Hoffe).
  - done.
  - constructor; [lia|done].
  - unfold jslength in Hsum. lia.
  - exists e, off. split_and!; [done|done|lia|lia|].
    rewrite Forall_forall in Hall. destruct (Hall e Hin) as [_ ?]. lia.
Qed.

Lemma getText_checkpoints_project_witness :
  let text := [Sample.ni; Sample.hao; Sample.ma; Sample.zhong; Sample.guo;
               Sample.ren; Sample.min] in
  let l := [{| node := Sample.firstText; offset := 5 |};
            {| node := Sample.boldText; offset := 2 |}] in
  getText Sample.page Sample.firstText 0 [] (Z.of_nat 7) = Some (text, l)
  ∧ Forall (λ e, isTextNode Sample.page (node e) = true
                 ∧ (0 ≤ offset e ≤ nodeLength Sample.page (node e))%Z) l
  ∧ (offsetSum l - 0)%Z = jslength text
  ∧ map node l `prefix_of` Sample.firstText :: followingTextNodes Sample.page Sample.firstText
  ∧ ∀ matchLength : nat, matchLength ≤ length text →
      ∃ e off, projectEnd 0 (Z.of_nat matchLength) l = Some (node e, off)
               ∧ e ∈ l ∧ (0 ≤ off ≤ offset e)%Z
               ∧ (off ≤ nodeLength Sample.page (node e))%Z.
Proof.
  split; [reflexivity|].
  apply (getText_checkpoints_project Sample.page Sample.firstText
           [Sample.ni; Sample.hao; Sample.ma; Sample.zhong; Sample.guo] 0 7).
  - reflexivity.
  - vm_compute. split; [discriminate|reflexivity].
  - reflexivity.
Defined.

(** A match of six code units ends one code unit into 人民. *)
Example projectEnd_across_nodes :
  projectEnd 0 6 [{| node := Sample.firstText; offset := 5 |};
                  {| node := Sample.boldText; offset := 2 |}]
  = Some (Sample.boldText, 1%Z).
Proof. reflexivity. Qed.

(** C4 as stated fails: the offsets recorded for 你好吗中国 followed by
    人民 are 5 and then 2. *)
Lemma checkpoint_offsets_not_monotone :
  ∃ text l,
    getText Sample.page Sample.firstText 0 [] 7 = Some (text, l)
    ∧ map offset l = [5; 2]%Z
    ∧ ¬ nonDecreasing (map offset l).
Proof.
  eexists _, _. split; [reflexivity|]. split; [reflexivity|].
  intros Hs. specialize (Hs 0 1 5%Z 2%Z). simpl in Hs.
  specialize (Hs ltac:(lia) eq_refl eq_refl). lia.
Qed.

(** ** The longest-match resolver *)

Section resolver.
Implicit Types (index : gmap ustring (list DictionaryEntry)) (buffer headword : ustring).

Lemma headword_within_max index headword found :
  index !! headword = Some found → length headword ≤ maxHeadwordLength index.
Proof.
  intros H. unfold maxHeadwordLength. apply max_list_elem_of_le.
  apply (list_elem_of_fmap_2 length). apply list_elem_of_fmap.
  exists (headword, found). split; [done|]. by apply elem_of_map_to_list.
Qed.

(** The scan from [L] down to 1 stops at the largest length whose prefix
    has a non-empty lookup, and fails exactly when there is none. *)
Lemma resolveFrom_longest index buffer L :
  match resolveFrom index buffer L with
  | Some m =>
      1 ≤ matchLength m ≤ L
      ∧ entries m = lookup index (take (matchLength m) buffer)
      ∧ entries m ≠ []
      ∧ ∀ L', matchLength m < L' ≤ L → lookup index (take L' buffer) = []
  | None => ∀ L', 1 ≤ L' ≤ L → lookup index (take L' buffer) = []
  end.
Proof.
  induction L as [|L IH]; simpl.
  - intros L' ?. lia.
  - destruct (lookup index (take (S L) buffer)) as [|e found] eqn:Hl.
    + destruct (resolveFrom index buffer L) as [m|].
      * destruct IH as (Hm & He & Hne & Hmax).
        split; [lia|]. split; [done|]. split; [done|].
        intros L' HL'. destruct (decide (L' = S L)) as [->|]; [done|]. apply Hmax. lia.
      * intros L' HL'. destruct (decide (L' = S L)) as [->|]; [done|]. apply IH. lia.
    + simpl. split; [lia|]. split; [by rewrite Hl|]. split; [done|]. intros L' ?. lia.
Qed.

Lemma lookup_wellFormed index headword :
  wellFormed index → lookup index headword ≠ [] ↔ is_Some (index !! headword).
Proof.
  intros Hwf. unfold lookup. destruct (index !! headword) as [found|] eqn:H; simpl.
  - destruct (Hwf _ _ H) as [Hk Hf]. split; [eauto|done].
  - split; [done|]. by intros [? ?].
Qed.

Lemma key_nonempty index headword :
  wellFormed index → is_Some (index !! headword) → headword ≠ [].
Proof. intros Hwf [found H]. by destruct (Hwf _ _ H). Qed.

End resolver.

(** C1.  For every well-formed index [D] (headwords non-empty, each filed
    with at least one entry) and every buffer [B], [resolve B D] returns
    the greatest [L ≤ min(len B, maxHeadwordLength D)] such that
    [B[0:L]] is a key of [D], together with the entries stored under that
    key, and returns no match exactly when no such [L] exists.  (No key
    is longer than [maxHeadwordLength D], so nothing is lost by the cap.) *)
Theorem resolve_longest_match (D : gmap ustring (list DictionaryEntry)) (B : ustring) :
  wellFormed D →
  match resolve B D with
  | Some m =>
      matchLength m ≤ Nat.min (length B) (maxHeadwordLength D)
      ∧ D !! take (matchLength m) B = Some (entries m)
      ∧ (∀ L, L ≤ Nat.min (length B) (maxHeadwordLength D) →
              is_Some (D !! take L B) → L ≤ matchLength m)
  | None =>
      ∀ L, L ≤ Nat.min (length B) (maxHeadwordLength D) → D !! take L B = None
  end
  ∧ ∀ L, L ≤ length B → is_Some (D !! take L B) → L ≤ maxHeadwordLength D.
Proof.
  intros Hwf. split.
  - unfold resolve.
    pose proof (resolveFrom_longest D B (Nat.min (length B) (maxHeadwordLength D))) as H.
    assert (∀ L, is_Some (D !! take L B) → L ≠ 0) as Hpos.
    { intros L HL ->. by apply (key_nonempty D [] Hwf) in HL. }
    destruct (resolveFrom D B _) as [m|].
    + destruct H as (Hm & He & Hne & Hmax). split; [lia|]. split.
      * rewrite He in Hne |- *. apply (lookup_wellFormed D _ Hwf) in Hne as [found Hf].
        unfold lookup. by rewrite Hf.
      * intros L HL Hsome. destruct (decide (L ≤ matchLength m)) as [|Hgt]; [done|].
        apply (lookup_wellFormed D _ Hwf) in Hsome. destruct Hsome. apply Hmax. lia.
    + intros L HL. destruct (D !! take L B) as [found|] eqn:HD; [|done].
      assert (is_Some (D !! take L B)) as Hsome by eauto.
      pose proof (Hpos L Hsome). apply (lookup_wellFormed D _ Hwf) in Hsome.
      destruct Hsome. apply H. lia.
  - intros L HL [found Hf]. apply headword_within_max in Hf.
    rewrite length_take in Hf. lia.
Qed.

Lemma sample_index_wellFormed : wellFormed Sample.index.
Proof.
  intros headword found. unfold Sample.index.
  rewrite !lookup_insert, lookup_empty.
  repeat case_decide; intros [= <-]; subst; done.
Qed.

Lemma resolve_longest_match_witness :
  match resolve [Sample.zhong; Sample.guo; Sample.ren] Sample.index with
  | Some m =>
      matchLength m ≤ Nat.min 3 (maxHeadwordLength Sample.index)
      ∧ Sample.index !! take (matchLength m) [Sample.zhong; Sample.guo; Sample.ren]
        = Some (entries m)
      ∧ (∀ L, L ≤ Nat.min 3 (maxHeadwordLength Sample.index) →
              is_Some (Sample.index !! take L [Sample.zhong; Sample.guo; Sample.ren]) →
              L ≤ matchLength m)
  | None =>
      ∀ L, L ≤ Nat.min 3 (maxHeadwordLength Sample.index) →
           Sample.index !! take L [Sample.zhong; Sample.guo; Sample.ren] = None
  end
  ∧ ∀ L, L ≤ 3 → is_Some (Sample.index !! take L [Sample.zhong; Sample.guo; Sample.ren]) →
         L ≤ maxHeadwordLength Sample.index.
Proof.
  exact (resolve_longest_match Sample.index [Sample.zhong; Sample.guo; Sample.ren]
           sample_index_wellFormed).
Defined.

(** The example of the specification: with 中 and 中国 in the index, the
    buffer 中国人 resolves to length 2 and the entries of 中国. *)
Example resolve_zhongguoren :
  resolve [Sample.zhong; Sample.guo; Sample.ren] Sample.index
  = Some {| entries := [Sample.zhongguo]; matchLength := 2 |}.
Proof. vm_compute. reflexivity. Qed.

Example resolve_no_match : resolve (lit "abc") Sample.index = None.
Proof. vm_compute. reflexivity. Qed.

(** The background listener answers a [search] request with what the
    resolver returns for [request.text], after copying [originalText]
    and [selStartOffset] from the request, and calls back also when
    there is no match. *)
Lemma background_search (mypy : Background.MyPy) (D : gmap ustring (list DictionaryEntry))
    (request : Request.t) :
  Request.type request = "search" →
  Background.dict mypy = Some D →
  Background.onMessage mypy request
  = Background.Returned
      (Some (match resolve (Request.text request) D with
             | Some m => Some {| Response.data := entries m;
                                 Response.matchLen := matchLength m;
                                 Response.originalText := Request.originalText request;
                                 Response.selStartOffset := Request.selStartOffset request |}
             | None => None
             end)) [].
Proof.
  intros Hty Hd. unfold Background.onMessage, lookUpWord. rewrite Hty, Hd. simpl.
  by destruct (resolve _ _).
Qed.

(** ** The highlight length *)

Section highlight_length.
Import Content.
Implicit Types (T : ustring) (m hl : nat).

Lemma skipJoiners_unfold T hl :
  skipJoiners T hl
  = if bool_decide (T !! hl = Some zwnj) then skipJoiners T (S hl) else hl.
Proof. funelim (skipJoiners T hl); by rewrite e. Qed.

Lemma joinersBefore_nil m : joinersBefore [] m = 0.
Proof. by destruct m. Qed.

(** One turn of the [for] loop against the count on the suffix. *)
Lemma skipJoiners_joinersBefore T hl m :
  hl ≤ skipJoiners T hl
  ∧ joinersBefore (drop hl T) (S m)
    = (skipJoiners T hl - hl) + joinersBefore (drop (S (skipJoiners T hl)) T) m.
Proof.
  remember (length T - hl) as k eqn:Hk. revert hl Hk.
  induction k as [k IH] using lt_wf_ind. intros hl Hk.
  rewrite skipJoiners_unfold. case_bool_decide as Hc.
  - pose proof (lookup_lt_Some _ _ _ Hc) as Hlt.
    destruct (IH (length T - S hl) ltac:(lia) (S hl) eq_refl) as [Hle Heq].
    split; [lia|]. rewrite (drop_S _ _ _ Hc). simpl.
    rewrite Heq. lia.
  - split; [lia|]. rewrite Nat.sub_diag. simpl.
    destruct (T !! hl) as [c|] eqn:Hl.
    + rewrite (drop_S _ _ _ Hl). simpl. rewrite decide_False by congruence. done.
    + apply lookup_ge_None in Hl. rewrite !drop_ge by lia.
      by rewrite !joinersBefore_nil.
Qed.

Lemma highlightLoop_joinersBefore T m hl :
  highlightLoop T m hl = hl + m + joinersBefore (drop hl T) m.
Proof.
  revert hl. induction m as [|m IH]; intros hl; simpl.
  - destruct (drop hl T); simpl; lia.
  - rewrite IH. destruct (skipJoiners_joinersBefore T hl m) as [Hle Heq].
    rewrite Heq. lia.
Qed.

Lemma occurrences_cons c x s :
  occurrences c (x :: s) = (if decide (x = c) then 1 else 0) + occurrences c s.
Proof. unfold occurrences. rewrite filter_cons. by case_decide. Qed.

Lemma joinersBefore_occurrences T m :
  joinersBefore T m = occurrences zwnj (take (m + joinersBefore T m) T).
Proof.
  revert m. induction T as [|c T IH]; intros m.
  - by rewrite joinersBefore_nil, take_nil.
  - destruct m as [|m]; [done|]. simpl. case_decide as Hc.
    + replace (m + S (joinersBefore T (S m))) with (S m + joinersBefore T (S m)) by lia.
      rewrite occurrences_cons, decide_True by done.
      by rewrite <- IH.
    + rewrite occurrences_cons, decide_False by done. by rewrite <- IH.
Qed.

End highlight_length.

(** C2.  The highlight length [processSearchResult] computes from
    [originalText] [T] and [matchLen] [m] is [m] plus the number of
    U+200C code units of [T] met before its [m]-th other character;
    these are exactly the U+200C among the first [highlightLength] code
    units of [T]. *)
Theorem highlightLength_counts_joiners (T : ustring) (m : nat) :
  Content.highlightLength T m = m + Content.joinersBefore T m
  ∧ Content.joinersBefore T m
    = occurrences Content.zwnj (take (Content.highlightLength T m) T).
Proof.
  assert (Content.highlightLength T m = m + Content.joinersBefore T m) as H.
  { unfold Content.highlightLength. rewrite highlightLoop_joinersBefore. by rewrite drop_0. }
  split; [done|]. rewrite H. apply joinersBefore_occurrences.
Qed.

(** The example of the specification: 中, U+200C, 国 with a match of two
    visible characters is highlighted over three code units. *)
Example highlightLength_zhong_zwnj_guo :
  Content.highlightLength [Sample.zhong; Content.zwnj; Sample.guo] 2 = 3.
Proof. reflexivity. Qed.

(** ** The text of a search request *)

Section replace_facts.
Implicit Types (pat s a b : ustring).

Lemma startsWith_spec pat s : startsWith pat s = true ↔ ∃ b, s = pat ++ b.
Proof.
  revert s. induction pat as [|p pat IH]; intros s; simpl.
  - split; [intros _; by exists s|done].
  - destruct s as [|c s].
    + split; [done|]. by intros [b ?].
    + case_decide as Hpc.
      * subst. rewrite IH. split; intros [b Hb]; exists b; simpl in *; congruence.
      * split; [done|]. intros [b [= ? ?]]. done.
Qed.

(** [replace pat [] s] deletes the first occurrence of [pat] in [s] and
    nothing else; without an occurrence it returns [s]. *)
Lemma replace_first pat s :
  (∃ a b, s = a ++ pat ++ b ∧ replace pat [] s = a ++ b
          ∧ ∀ a' b', s = a' ++ pat ++ b' → length a ≤ length a')
  ∨ (replace pat [] s = s ∧ ∀ a' b', s ≠ a' ++ pat ++ b').
Proof.
  induction s as [|c s IH].
  - simpl. destruct (startsWith pat []) eqn:Hsw.
    + left. apply startsWith_spec in Hsw as [b Hb].
      exists [], b. simpl. split; [done|]. split; [|intros; lia].
      symmetry in Hb. apply app_eq_nil in Hb as [-> ->]. done.
    + right. split; [done|]. intros a' b' Heq.
      symmetry in Heq. apply app_eq_nil in Heq as [-> [-> ->]%app_eq_nil].
      done.
  - simpl. destruct (startsWith pat (c :: s)) eqn:Hsw.
    + left. apply startsWith_spec in Hsw as [b Hb].
      exists [], b. simpl. split; [done|]. split; [|intros; lia].
      rewrite Hb. by rewrite drop_app_length.
    + assert (∀ b', c :: s ≠ pat ++ b') as Hno.
      { intros b' Heq. assert (startsWith pat (c :: s) = true) as Ht
          by (apply startsWith_spec; eauto). congruence. }
      destruct IH as [(a & b & Hs & Hr & Hmin)|[Hr Hnone]].
      * left. exists (c :: a), b. simpl. split; [by rewrite Hs|].
        split; [by rewrite Hr|].
        intros [|x a'] b' Heq; simpl in *.
        -- by apply Hno in Heq.
        -- injection Heq as _ Heq. apply Hmin in Heq. lia.
      * right. split; [by rewrite Hr|].
        intros [|x a'] b' Heq; simpl in *.
        -- by apply Hno in Heq.
        -- injection Heq as _ Heq. by apply Hnone in Heq.
Qed.

Lemma occurrences_app c s1 s2 :
  occurrences c (s1 ++ s2) = occurrences c s1 + occurrences c s2.
Proof. unfold occurrences. by rewrite filter_app, length_app. Qed.

Lemma replace_keeps_occurrences c pat s :
  occurrences c pat = 0 → occurrences c (replace pat [] s) = occurrences c s.
Proof.
  intros Hc. destruct (replace_first pat s) as [(a & b & -> & -> & _)|[-> _]]; [|done].
  rewrite !occurrences_app, Hc. lia.
Qed.

Lemma occurrences_pos c s : c ∈ s ↔ 0 < occurrences c s.
Proof.
  induction s as [|x s IH].
  - split; [by intros ?%not_elem_of_nil|]. unfold occurrences. simpl. lia.
  - rewrite elem_of_cons, IH. unfold occurrences. rewrite filter_cons.
    case_decide; simpl; [split; [lia|auto]|].
    split; [intros [?|?]; [congruence|done]|auto].
Qed.

End replace_facts.

(** C10.  When the saved hover position is inside a text node,
    [makeSearch] returns 0 after sending one [search] request whose
    [originalText] is the collected buffer and whose [text] is that
    buffer with the first occurrence of the five characters [&zwnj]
    removed, and nothing else: the buffer comes back unchanged when
    [&zwnj] does not occur in it, and every U+200C of the buffer is still
    in [text]. *)
Theorem makeSearch_text_keeps_joiners (env : Content.Browser) (s : Content.State)
    (textNode : NodeRef) (data : ustring) :
  Content.savedTextNode s = Some textNode →
  nodeAt (Content.document env) textNode = Some (Text data) →
  (0 ≤ Content.savedOffset s < jslength data)%Z →
  ∃ buffer selEndList s' text,
    getText (Content.document env) textNode (Content.savedOffset s) [] defaultMaxLength
    = Some (buffer, selEndList)
    ∧ Content.makeSearch env s = (Content.Return 0%Z, s')
    ∧ Content.sent s'
      = Content.sent s ++ [{| Request.type := "search"; Request.text := text;
                              Request.originalText := buffer;
                              Request.selStartOffset := Content.savedOffset s |}]
    ∧ text = replace (lit "&zwnj") [] buffer
    ∧ ((∃ a b, buffer = a ++ lit "&zwnj" ++ b ∧ text = a ++ b
               ∧ ∀ a' b', buffer = a' ++ lit "&zwnj" ++ b' → length a ≤ length a')
       ∨ (text = buffer ∧ ∀ a' b', buffer ≠ a' ++ lit "&zwnj" ++ b'))
    ∧ occurrences Content.zwnj text = occurrences Content.zwnj buffer
    ∧ (Content.zwnj ∈ buffer → Content.zwnj ∈ text).
Proof.
  intros Hsaved Hnode Hoff.
  pose proof (getText_unfold (Content.document env) textNode data (Content.savedOffset s)
                defaultMaxLength Hnode []) as Hget.
  eexists _, _, _, _. split; [exact Hget|].
  split.
  { unfold Content.makeSearch, mbind, Content.M_bind, Content.bind, Content.get. simpl.
    rewrite Hsaved. simpl. unfold nodeData. rewrite Hnode.
    replace (Content.savedOffset s <? 0)%Z with false by lia. simpl.
    replace (jslength data <=? Content.savedOffset s)%Z with false by lia.
    rewrite Hget. reflexivity. }
  split; [reflexivity|]. split; [reflexivity|].
  split; [apply replace_first|].
  assert (occurrences Content.zwnj (lit "&zwnj") = 0) as Hpat by reflexivity.
  split; [by apply replace_keeps_occurrences|].
  rewrite !occurrences_pos, replace_keeps_occurrences; done.
Qed.

(** ** Messages of an unknown type *)

Section unknown_messages.
Import Content.

Lemma reqest_unresolved : resolves ["request"] "reqest" = false.
Proof. reflexivity. Qed.

(** The content listener reaches its [default] case for every type other
    than [enable], [disable] and [showPopup], and the misspelt [reqest]
    there throws before anything is logged. *)
Lemma content_unknown_type_throws (env : Browser) (request : Request.t) (s : State) :
  Request.type request ≠ "enable" →
  Request.type request ≠ "disable" →
  Request.type request ≠ "showPopup" →
  onMessage env request s = (Throw (ReferenceError "reqest"), s).
Proof.
  intros H1 H2 H3. unfold onMessage.
  apply String.eqb_neq in H1, H2, H3. rewrite H1, H2, H3.
  unfold mbind, M_bind, bind, reference. by rewrite reqest_unresolved.
Qed.

(** The background listener logs every request that is not a [search]
    and returns without calling back. *)
Lemma background_unknown_type_logged (mypy : Background.MyPy) (request : Request.t) :
  Request.type request ≠ "search" →
  Background.onMessage mypy request
  = Background.Returned None
      [{| logText := "Background received unknown request: "; logged := Some request |}].
Proof.
  intros H. unfold Background.onMessage. apply String.eqb_neq in H. by rewrite H.
Qed.

End unknown_messages.

(** C8, at a message of type [ping]: the content listener throws a
    [ReferenceError] for [reqest], logs nothing and leaves the error
    uncaught; the background listener logs the request and returns. *)
Theorem unknown_message_content_throws :
  Content.onMessage (Sample.browser 300) (Sample.message "ping") Content.initial
  = (Content.Throw (ReferenceError "reqest"), Content.initial)
  ∧ Content.console
      (Content.dispatch (Sample.browser 300) Content.initial
         (Content.MessageReceived (Sample.message "ping"))) = []
  ∧ Content.uncaught
      (Content.dispatch (Sample.browser 300) Content.initial
         (Content.MessageReceived (Sample.message "ping"))) = [ReferenceError "reqest"]
  ∧ Background.onMessage Sample.mypy (Sample.message "ping")
    = Background.Returned None
        [{| logText := "Background received unknown request: ";
            logged := Some (Sample.message "ping") |}].
Proof. split_and!; reflexivity. Qed.

(** ** The popup width fallback *)

Section popup_width.
Import Content.

Lemma pw_unresolved : resolves showPopupLocals "pw" = false.
Proof. reflexivity. Qed.

(** With an anchor element and a measured width that is not positive,
    [showPopup] stops at the assignment to the undeclared [pw]: the popup
    is left where the measuring put it, and neither the fallback width
    nor the overflow correction is applied. *)
Lemma showPopup_nonpositive_width (env : Browser) (html : ustring) (elem : NodeRef)
    (x y : option Z) (s : State) :
  (offsetWidth env html ≤ 0)%Z →
  showPopup env html (Some elem) x y s
  = (Throw (ReferenceError "pw"),
     set_popup (Some {| innerHTML := html; top := Some (-1000)%Z; left := Some 0%Z;
                        displayed := true |})
       (set_popup (Some {| innerHTML := html;
                           top := top (default {| innerHTML := []; top := None; left := None;
                                                  displayed := true |} (popup s));
                           left := left (default {| innerHTML := []; top := None;
                                                    left := None; displayed := true |}
                                           (popup s));
                           displayed := displayed (default {| innerHTML := []; top := None;
                                                              left := None;
                                                              displayed := true |}
                                                     (popup s)) |}) s)).
Proof.
  intros Hw. unfold showPopup.
  destruct (match x, y with
            | Some x', Some y' => if (x' =? 0)%Z || (y' =? 0)%Z then (0, 0)%Z else (x', y')
            | _, _ => (0, 0)%Z
            end) as [x0 y0].
  unfold mbind, M_bind, bind, get, modify, reference. simpl.
  destruct (offsetWidth env html <=? 0)%Z eqn:E; [reflexivity|lia].
Qed.

(** With a positive width the horizontal correction uses the measured
    width. *)
Example showPopup_near_right_edge :
  (popup (showPopup (Sample.browser 300) (lit "x") (Some Sample.paragraph)
            (Some 1200%Z) (Some 100%Z) initial).2) ≫= left
  = Some 960%Z.
Proof. reflexivity. Qed.

End popup_width.

(** C9, at a popup measured 0 wide near the right edge (x = 1200 in a
    1280 wide window): the code throws a [ReferenceError] for [pw] and
    leaves the popup at left 0, top -1000; with the fallback width 200 the
    correction would have put it at left 1060. *)
Theorem showPopup_width_fallback_not_applied :
  ∃ s',
    Content.showPopup (Sample.browser 0) (lit "x") (Some Sample.paragraph)
      (Some 1200%Z) (Some 100%Z) Content.initial
    = (Content.Throw (ReferenceError "pw"), s')
    ∧ Content.popup s'
      = Some {| Content.innerHTML := lit "x"; Content.top := Some (-1000)%Z;
                Content.left := Some 0%Z; Content.displayed := true |}
    ∧ (Content.popup
         (Content.showPopup (Sample.browser 200) (lit "x") (Some Sample.paragraph)
            (Some 1200%Z) (Some 100%Z) Content.initial).2) ≫= Content.left
      = Some 1060%Z.
Proof. eexists. split; [vm_compute; reflexivity|]. split; reflexivity. Qed.

(** ** Disabling while a lookup is pending *)

Section disabling.
Import Content.

(** [disableTabs] leaves the armed timeouts and the [timer] variable as
    they are. *)
Lemma disableTabs_keeps_timeouts (env : Browser) (s : State) :
  timeouts (disableTabs env s).2 = timeouts s
  ∧ timer (disableTabs env s).2 = timer s
  ∧ listening (disableTabs env s).2 = false
  ∧ popup (disableTabs env s).2 = None.
Proof.
  unfold disableTabs, clearHighlight, mbind, M_bind, bind, get, modify, ret. simpl.
  destruct (selText s); simpl; try done.
  all: destruct (isCollapsed (selection s) || _); simpl; done.
Qed.

End disabling.

(** C6, on the sample page: after [enable] and one move over 你 the
    timeout 1 is armed; [disable] removes the listener and the popup but
    leaves timeout 1 armed; when it fires, [makeSearch] sends the request
    for 你好吗中国人民; and the answer to that request puts the popup on
    screen and highlights 你好. *)
Theorem disable_leaves_pending_lookup :
  let env := Sample.browser 300 in
  let disabled :=
    Content.dispatch env Sample.pendingLookup
      (Content.MessageReceived (Sample.message "disable")) in
  let fired := Content.dispatch env disabled (Content.TimerFired 1) in
  let answered :=
    Content.dispatch env fired (Content.ResponseReceived (Sample.answer fired 0)) in
  Content.timeouts Sample.pendingLookup = [1]
  ∧ Content.listening disabled = false
  ∧ Content.timeouts disabled = [1]
  ∧ Content.timer disabled = Some 1
  ∧ map Request.text (Content.sent fired)
    = [[Sample.ni; Sample.hao; Sample.ma; Sample.zhong; Sample.guo; Sample.ren; Sample.min]]
  ∧ Content.popupShown answered = true
  ∧ Content.selection answered
    = Some {| Content.startContainer := Sample.firstText; Content.startOffset := 0;
              Content.endContainer := Sample.firstText; Content.endOffset := 2 |}
  ∧ Content.uncaught answered = [].
Proof. vm_compute. split_and!; reflexivity. Qed.

(** ** Ownership of the selection *)

Section selection_ownership.
Import Content.
Variable env : Browser.

Lemma keeps_ret {A} (a : A) : Keeps env (ret a).
Proof. intros s o s' Hf [= <- <-]. done. Qed.

Lemma keeps_throw {A} e : Keeps env (@throw A e).
Proof. intros s o s' Hf [= <- <-]. done. Qed.

Lemma keeps_outOfFuel {A} : Keeps env (@outOfFuel A).
Proof. intros s o s' Hf [= <- <-]. done. Qed.

Lemma keeps_get : Keeps env get.
Proof. intros s o s' Hf [= <- <-]. done. Qed.

Lemma keeps_bind {A B} (m : M A) (k : A → M B) :
  Keeps env m → (∀ a, Keeps env (k a)) → Keeps env (m ≫= k).
Proof.
  intros Hm Hk s o s' Hf. unfold mbind, M_bind, bind.
  destruct (m s) as [[a| |] s1] eqn:Hms; intros Heq.
  - destruct (Hm _ _ _ Hf Hms) as [Hsel Hf1].
    destruct (Hk a _ _ _ Hf1 Heq) as [Hsel' Hf']. split; [congruence|done].
  - injection Heq as <- <-. by apply (Hm _ _ _ Hf Hms).
  - injection Heq as <- <-. by apply (Hm _ _ _ Hf Hms).
Qed.

Lemma keeps_modify (f : State → State) :
  (∀ s, selection (f s) = selection s ∧ selText (f s) = selText s) → Keeps env (modify f).
Proof.
  intros Hpres s o s' [Hc Ht] [= <- <-]. destruct (Hpres s) as [Hsel Hst].
  unfold foreignSelection. by rewrite Hsel, Hst.
Qed.

Lemma keeps_clearHighlight : Keeps env (clearHighlight env).
Proof.
  intros s o s' [Hc Ht]. unfold clearHighlight, mbind, M_bind, bind, get, modify, ret.
  rewrite Hc, Ht. simpl.
  destruct (selText s) eqn:Hs; intros [= <- <-]; simpl;
    unfold foreignSelection; simpl; try rewrite Hs; done.
Qed.

Lemma keeps_highlightMatch rangeStartNode rangeStartOffset matchLen selEndList :
  Keeps env (highlightMatch env rangeStartNode rangeStartOffset matchLen selEndList).
Proof.
  unfold highlightMatch. destruct (projectEnd _ _ _) as [[endNode off]|]; [|apply keeps_ret].
  apply keeps_bind; [unfold setBoundary; case_match; [apply keeps_throw|apply keeps_ret]|].
  intros _.
  apply keeps_bind; [unfold setBoundary; case_match; [apply keeps_throw|apply keeps_ret]|].
  intros _ s o s' [Hc Ht]. unfold mbind, M_bind, bind, get. rewrite Hc, Ht. simpl.
  by intros [= <- <-].
Qed.

(** Updates of the script's variables and of the page other than the
    selection and [selText]. *)
Ltac keeps_update :=
  apply keeps_modify; intros [];
  repeat match goal with |- context [match ?x with _ => _ end] => destruct x end; done.

Create HintDb keeps.

Ltac keeps :=
  repeat first
    [ solve [auto 1 with keeps nocore]
    | keeps_update
    | match goal with
      | |- Keeps _ (mbind _ _) => apply keeps_bind; [|intros ?]
      | |- Keeps _ (match ?x with _ => _ end) => destruct x
      end ].

#[local] Hint Resolve keeps_ret keeps_throw keeps_outOfFuel keeps_get
  keeps_clearHighlight keeps_highlightMatch : keeps.

Lemma keeps_hidePopup : Keeps env hidePopup.
Proof. unfold hidePopup. keeps. Qed.

Lemma keeps_log txt request : Keeps env (log txt request).
Proof. unfold log. keeps. Qed.

Lemma keeps_reference locals name : Keeps env (reference locals name).
Proof. unfold reference. keeps. Qed.

Lemma keeps_clearTimeout id : Keeps env (clearTimeout id).
Proof. unfold clearTimeout. keeps. Qed.

Lemma keeps_setTimer : Keeps env setTimer.
Proof. unfold setTimer. keeps. Qed.

#[local] Hint Resolve keeps_hidePopup keeps_log keeps_reference keeps_clearTimeout
  keeps_setTimer : keeps.

Lemma keeps_showPopup html elem x y : Keeps env (showPopup env html elem x y).
Proof. unfold showPopup. keeps. Qed.

#[local] Hint Resolve keeps_showPopup : keeps.

Lemma keeps_processSearchResult result : Keeps env (processSearchResult env result).
Proof. unfold processSearchResult. keeps. Qed.

Lemma keeps_makeSearch : Keeps env (makeSearch env).
Proof. unfold makeSearch. keeps. Qed.

Lemma keeps_onMouseMove mouseMove : Keeps env (onMouseMove env mouseMove).
Proof. unfold onMouseMove. keeps. Qed.

Lemma keeps_onMessage request : Keeps env (onMessage env request).
Proof. unfold onMessage, enableTabs, disableTabs. keeps. Qed.

#[local] Hint Resolve keeps_processSearchResult keeps_makeSearch keeps_onMouseMove
  keeps_onMessage : keeps.

Lemma keeps_handle ev : Keeps env (handle env ev).
Proof. destruct ev; simpl; keeps. Qed.

Lemma dispatch_keeps_foreign_selection s ev :
  foreignSelection env s →
  selection (dispatch env s ev) = selection s ∧ foreignSelection env (dispatch env s ev).
Proof.
  intros Hf. unfold dispatch. destruct (handle env ev s) as [o s'] eqn:Hh.
  destruct (keeps_handle ev _ _ _ Hf Hh) as [Hsel Hf'].
  by destruct o.
Qed.

Lemma run_keeps_foreign_selection evs s :
  foreignSelection env s →
  selection (run env evs s) = selection s ∧ foreignSelection env (run env evs s).
Proof.
  unfold run. revert s. induction evs as [|ev evs IH]; intros s Hf; simpl; [done|].
  destruct (dispatch_keeps_foreign_selection s ev Hf) as [Hsel Hf'].
  destruct (IH _ Hf') as [Hsel' Hf'']. split; [congruence|done].
Qed.

End selection_ownership.




(** The same events without the reader's selection let the script
    replace its own highlight: the guard only protects foreign text. *)
Example own_highlight_cleared :
  let s := Content.run (Sample.browser 300)
             [Content.MessageReceived (Sample.message "enable"); Sample.hover 0 100 100;
              Content.TimerFired 1; Content.ResponseReceived (Some Sample.lateResponse)]
             Content.initial in
  Content.selection s
  = Some {| Content.startContainer := Sample.firstText; Content.startOffset := 0;
            Content.endContainer := Sample.firstText; Content.endOffset := 2 |}
  ∧ Content.selection (Content.clearHighlight (Sample.browser 300) s).2 = None.
Proof. split; reflexivity. Qed.

Lemma makeSearch_text_keeps_joiners_witness :
  ∃ buffer selEndList s' text,
    getText Sample.editorPage Sample.firstText 0 [] defaultMaxLength
    = Some (buffer, selEndList)
    ∧ Content.makeSearch Sample.editorBrowser Sample.overEditorText = (Content.Return 0%Z, s')
    ∧ Content.sent s'
      = Content.sent Sample.overEditorText
        ++ [{| Request.type := "search"; Request.text := text;
               Request.originalText := buffer;
               Request.selStartOffset := Content.savedOffset Sample.overEditorText |}]
    ∧ text = replace (lit "&zwnj") [] buffer
    ∧ ((∃ a b, buffer = a ++ lit "&zwnj" ++ b ∧ text = a ++ b
               ∧ ∀ a' b', buffer = a' ++ lit "&zwnj" ++ b' → length a ≤ length a')
       ∨ (text = buffer ∧ ∀ a' b', buffer ≠ a' ++ lit "&zwnj" ++ b'))
    ∧ occurrences Content.zwnj text = occurrences Content.zwnj buffer
    ∧ (Content.zwnj ∈ buffer → Content.zwnj ∈ text).
Proof.
  apply (makeSearch_text_keeps_joiners Sample.editorBrowser Sample.overEditorText
           Sample.firstText Sample.editorText).
  - reflexivity.
  - reflexivity.
  - vm_compute. split; [discriminate|reflexivity].
Defined.

(** On the editor page the request text is U+200C followed by 中: the
    literal is gone, the joiner is not. *)
Example makeSearch_editor_text :
  map Request.text (Content.sent (Content.makeSearch Sample.editorBrowser
                                    Sample.overEditorText).2)
  = [[Content.zwnj; Sample.zhong]].
Proof. reflexivity. Qed.

(** ** Responses and the current hover state *)

Section responses.
Import Content.
Variable env : Browser.

Lemma bind_Return {A B} (m : M A) (k : A → M B) s b s' :
  (m ≫= k) s = (Return b, s') →
  ∃ a s1, m s = (Return a, s1) ∧ k a s1 = (Return b, s').
Proof.
  unfold mbind, M_bind, bind. destruct (m s) as [[a| |] s1]; [eauto|done|done].
Qed.

(** When [showPopup] is given an anchor element and returns, the popup
    is displayed with the given markup. *)
Lemma showPopup_returns html elem x y s s' :
  showPopup env html (Some elem) x y s = (Return tt, s') →
  ∃ p, popup s' = Some p ∧ innerHTML p = html ∧ displayed p = true.
Proof.
  unfold showPopup.
  destruct (match x, y with
            | Some x', Some y' => if (x' =? 0)%Z || (y' =? 0)%Z then (0, 0)%Z else (x', y')
            | _, _ => (0, 0)%Z
            end) as [x0 y0].
  intros (s0 & s1 & [= <- <-] & H)%bind_Return.
  apply bind_Return in H as ([] & s2 & [= <-] & H).
  apply bind_Return in H as ([x1 y1] & s3 & H & Hlast).
  apply bind_Return in H as ([] & s4 & [= <-] & H).
  apply bind_Return in H as ([] & s5 & Href & [= _ _ <-]).
  assert (s5 = set_popup (Some {| innerHTML := html; top := Some (-1000)%Z;
                                  left := Some 0%Z; displayed := true |})
                 (set_popup (Some {| innerHTML := html;
                     top := top (default {| innerHTML := []; top := None; left := None;
                                            displayed := true |} (popup s));
                     left := left (default {| innerHTML := []; top := None; left := None;
                                              displayed := true |} (popup s));
                     displayed := displayed (default {| innerHTML := []; top := None;
                                                        left := None; displayed := true |}
                                               (popup s)) |}) s)) as ->.
  { destruct (offsetWidth env html <=? 0)%Z; unfold reference, ret, throw in Href;
      [destruct (resolves _ _)|]; congruence. }
  destruct (negb _ && negb _); injection Hlast as <-; simpl; eauto.
Qed.

(** An absent response hides the popup. *)
Lemma processSearchResult_no_match s :
  popupShown (processSearchResult env None s).2 = false.
Proof.
  unfold processSearchResult, hidePopup, clearHighlight, mbind, M_bind, bind, get, modify,
    ret, popupShown. simpl.
  destruct (popup s) as [p|] eqn:Hp; simpl.
  all: destruct (selText _); simpl; try (destruct (isCollapsed _ || _)); simpl;
    rewrite ?Hp; done.
Qed.

Lemma ignores_ret {A} (a : A) : IgnoresSavedOffset (ret a).
Proof. by intros s o s' off [= <- <-]. Qed.

Lemma ignores_throw {A} e : IgnoresSavedOffset (@throw A e).
Proof. by intros s o s' off [= <- <-]. Qed.

Lemma ignores_bind {A B} (m : M A) (k : A → M B) :
  IgnoresSavedOffset m → (∀ a, IgnoresSavedOffset (k a)) → IgnoresSavedOffset (m ≫= k).
Proof.
  intros Hm Hk s o s' off. unfold mbind, M_bind, bind.
  destruct (m s) as [[a| |] s1] eqn:Hms; intros Heq; rewrite (Hm _ _ _ off Hms).
  - by apply Hk.
  - by injection Heq as <- <-.
  - by injection Heq as <- <-.
Qed.

(** Reading the state is harmless when what follows makes no use of
    [savedOffset]. *)
Lemma ignores_get {B} (k : State → M B) :
  (∀ a off, k (set_savedOffset off a) = k a) →
  (∀ a, IgnoresSavedOffset (k a)) →
  IgnoresSavedOffset (get ≫= k).
Proof.
  intros Hsame Hk s o s' off. unfold mbind, M_bind, bind, get. rewrite Hsame. apply Hk.
Qed.

Lemma ignores_modify (f : State → State) :
  (∀ s off, f (set_savedOffset off s) = set_savedOffset off (f s)) →
  IgnoresSavedOffset (modify f).
Proof. intros Hf s o s' off [= <- <-]. unfold modify. by rewrite Hf. Qed.

Ltac ignores_update :=
  apply ignores_modify; intros [] ?; simpl;
  repeat match goal with |- context [match ?x with _ => _ end] => destruct x end; done.

Create HintDb ignores.

Ltac ignores :=
  repeat first
    [ solve [auto 1 with ignores nocore]
    | ignores_update
    | match goal with
      | |- IgnoresSavedOffset (mbind _ get) =>
          apply ignores_get; [intros [] ?; reflexivity|intros ?]
      | |- IgnoresSavedOffset (mbind _ _) => apply ignores_bind; [|intros ?]
      | |- IgnoresSavedOffset (match ?x with _ => _ end) => destruct x
      end ].

#[local] Hint Resolve ignores_ret ignores_throw : ignores.

Lemma ignores_hidePopup : IgnoresSavedOffset hidePopup.
Proof. unfold hidePopup. ignores. Qed.

Lemma ignores_clearHighlight : IgnoresSavedOffset (clearHighlight env).
Proof. unfold clearHighlight. ignores. Qed.

Lemma ignores_reference locals name : IgnoresSavedOffset (reference locals name).
Proof. unfold reference. ignores. Qed.

#[local] Hint Resolve ignores_hidePopup ignores_clearHighlight ignores_reference : ignores.

Lemma ignores_highlightMatch rangeStartNode rangeStartOffset matchLen selEndList :
  IgnoresSavedOffset
    (highlightMatch env rangeStartNode rangeStartOffset matchLen selEndList).
Proof. unfold highlightMatch, setBoundary. ignores. Qed.

Lemma ignores_showPopup html elem x y : IgnoresSavedOffset (showPopup env html elem x y).
Proof. unfold showPopup. ignores. Qed.

#[local] Hint Resolve ignores_highlightMatch ignores_showPopup : ignores.

(** [processSearchResult] never reads the saved hover offset. *)
Lemma ignores_processSearchResult result :
  IgnoresSavedOffset (processSearchResult env result).
Proof. unfold processSearchResult. ignores. Qed.

End responses.

(** C5, as the code has it.  [processSearchResult] never compares the
    response with the current hover state: whenever it is given a
    response with a non-empty [data] and returns, the popup is displayed
    with the markup of that response, whatever the response's
    [selStartOffset] and [originalText] and whatever the saved hover
    position (the saved text node being a node of the page, not the
    document itself); and it does the same for every other value of the
    saved hover offset. *)
Theorem processSearchResult_applies_any_response (env : Content.Browser) (s s' : Content.State)
    (r : Response.t) :
  Response.data r ≠ [] →
  Content.savedTextNode s ≠ Some [] →
  Content.processSearchResult env (Some r) s = (Content.Return tt, s') →
  (∃ p, Content.popup s' = Some p
        ∧ Content.innerHTML p = Content.makeHtml (Some r)
        ∧ Content.displayed p = true)
  ∧ ∀ off, Content.processSearchResult env (Some r) (Content.set_savedOffset off s)
           = (Content.Return tt, Content.set_savedOffset off s').
Proof.
  intros Hdata Hnode Hrun. split; [|intros off; by apply ignores_processSearchResult].
  revert Hrun. unfold Content.processSearchResult.
  rewrite bool_decide_false by done.
  intros (s0 & s1 & [= <- <-] & H)%bind_Return.
  destruct (Content.savedTarget s) as [target|]; [|done].
  apply bind_Return in H as (proceed & s2 & Hhl & Hshow).
  destruct proceed; [by apply showPopup_returns in Hshow|].
  exfalso. destruct (negb _); [|done].
  destruct (Content.savedTextNode s) as [[|i textNode]|]; [done| |done].
  simpl in Hhl. by apply bind_Return in Hhl as ([] & s3 & _ & [= ?]).
Qed.

Lemma processSearchResult_applies_any_response_witness :
  let env := Sample.browser 300 in
  let s' := (Content.processSearchResult env (Some Sample.lateResponse) Sample.movedOn).2 in
  Content.stale env Sample.movedOn Sample.lateResponse
  ∧ (∃ p, Content.popup s' = Some p
          ∧ Content.innerHTML p = Content.makeHtml (Some Sample.lateResponse)
          ∧ Content.displayed p = true)
  ∧ ∀ off, Content.processSearchResult env (Some Sample.lateResponse)
             (Content.set_savedOffset off Sample.movedOn)
           = (Content.Return tt, Content.set_savedOffset off s').
Proof.
  split; [left; vm_compute; discriminate|].
  apply (processSearchResult_applies_any_response (Sample.browser 300) Sample.movedOn _
           Sample.lateResponse).
  - discriminate.
  - vm_compute. discriminate.
  - vm_compute. reflexivity.
Defined.

(** C5 as stated fails.  On the sample page the pointer rests on 你 long
    enough for the request to go out, then moves on to 中; the answer to
    the first request is then stale, and handling it highlights 你好 and
    displays the popup all the same. *)
Lemma stale_response_not_discarded :
  let env := Sample.browser 300 in
  let after :=
    Content.dispatch env Sample.movedOn
      (Content.ResponseReceived (Some Sample.lateResponse)) in
  Sample.answer Sample.movedOn 0 = Some Sample.lateResponse
  ∧ Content.stale env Sample.movedOn Sample.lateResponse
  ∧ Content.savedOffset Sample.movedOn = 3%Z
  ∧ Content.popupShown Sample.movedOn = false
  ∧ Content.selection Sample.movedOn = None
  ∧ Content.popupShown after = true
  ∧ Content.selection after
    = Some {| Content.startContainer := Sample.firstText; Content.startOffset := 0;
              Content.endContainer := Sample.firstText; Content.endOffset := 2 |}
  ∧ Content.uncaught after = [].
Proof.
  split; [vm_compute; reflexivity|].
  split; [left; vm_compute; discriminate|].
  vm_compute. split_and!; reflexivity.
Qed.

(** * Further properties of the code *)

(** ** Walking the text nodes *)

Section text_walk.
Implicit Types (doc : Node) (p q : NodeRef).

Lemma documentTexts_NoDup doc : NoDup (documentTexts doc).
Proof. apply texts_NoDup. Qed.

Lemma seek_Some_of_elem (l : list NodeRef) p : p ∈ l → ∃ r, seek l p = Some r.
Proof.
  intros Hin. destruct (seek l p) as [r|] eqn:E; [eauto|]. by apply seek_None in E.
Qed.

(** What follows a text node in document order: later text nodes only,
    each once, never the node itself. *)
Lemma followingTextNodes_spec doc p data :
  nodeAt doc p = Some (Text data) →
  ∃ earlier,
    documentTexts doc = earlier ++ p :: followingTextNodes doc p
    ∧ (p ∉ earlier)
    ∧ (p ∉ followingTextNodes doc p)
    ∧ NoDup (followingTextNodes doc p).
Proof.
  intros H. destruct (seek_Some_of_elem _ _ (text_in_document _ _ _ H)) as [r Hr].
  unfold followingTextNodes. rewrite Hr. simpl.
  apply seek_Some in Hr as (earlier & Heq & Hnot). exists earlier.
  pose proof (documentTexts_NoDup doc) as Hnd. rewrite Heq in Hnd.
  apply NoDup_app in Hnd as (_ & _ & Hnd). apply NoDup_cons in Hnd as [Hp Hr'].
  done.
Qed.

End text_walk.

(** X1.  Called as the source calls it, on a text node and its parent,
    [findNextTextNode] returns the next text node of the document in
    document order, whatever the nesting of the elements in between:
    the result is a text node other than the given one, and it is null
    exactly when the given node is the last text node. *)
Theorem findNextTextNode_document_order (doc : Node) (previous : NodeRef) (data : ustring) :
  nodeAt doc previous = Some (Text data) →
  findNextTextNode doc (parentNode previous) previous
  = head (followingTextNodes doc previous)
  ∧ (∀ next, findNextTextNode doc (parentNode previous) previous = Some next →
       next ≠ previous
       ∧ isTextNode doc next = true
       ∧ ∃ earlier later,
           documentTexts doc = earlier ++ previous :: next :: later)
  ∧ (findNextTextNode doc (parentNode previous) previous = None ↔
     ∃ earlier, documentTexts doc = earlier ++ [previous]).
Proof.
  intros H. rewrite (findNextTextNode_next _ _ _ H).
  destruct (followingTextNodes_spec doc previous data H) as (earlier & Heq & Hne & Hnf & Hnd).
  split; [done|]. split.
  - intros next Hnext. destruct (followingTextNodes doc previous) as [|x later]; [done|].
    injection Hnext as ->. split_and!.
    + intros ->. apply Hnf. left.
    + assert (next ∈ documentTexts doc) as [d Hd]%documentTexts_are_texts.
      { rewrite Heq, elem_of_app, !elem_of_cons. auto. }
      unfold isTextNode. by rewrite Hd.
    + by exists earlier, later.
  - destruct (followingTextNodes doc previous) as [|x later]; simpl.
    + split; [intros _; by exists earlier|done].
    + split; [done|]. intros [earlier' Heq'].
      pose proof (documentTexts_NoDup doc) as Hnd'.
      assert (length earlier = length earlier') as Hlen.
      { apply (NoDup_lookup _ _ _ previous Hnd').
        - rewrite Heq. apply list_lookup_middle. done.
        - rewrite Heq'. apply list_lookup_middle. done. }
      rewrite Heq in Heq'. apply (f_equal length) in Heq'.
      rewrite !length_app in Heq'. simpl in Heq'. lia.
Qed.

Lemma findNextTextNode_document_order_witness :
  findNextTextNode Sample.page (parentNode Sample.firstText) Sample.firstText
  = head (followingTextNodes Sample.page Sample.firstText)
  ∧ (∀ next,
       findNextTextNode Sample.page (parentNode Sample.firstText) Sample.firstText
       = Some next →
       next ≠ Sample.firstText
       ∧ isTextNode Sample.page next = true
       ∧ ∃ earlier later,
           documentTexts Sample.page = earlier ++ Sample.firstText :: next :: later)
  ∧ (findNextTextNode Sample.page (parentNode Sample.firstText) Sample.firstText = None ↔
     ∃ earlier, documentTexts Sample.page = earlier ++ [Sample.firstText]).
Proof.
  apply (findNextTextNode_document_order Sample.page Sample.firstText
           [Sample.ni; Sample.hao; Sample.ma; Sample.zhong; Sample.guo]).
  reflexivity.
Defined.

(** From 你好吗中国 the search leaves the paragraph's first child, enters
    the [b] element and finds 人民; from there nothing follows. *)
Example findNextTextNode_into_bold :
  findNextTextNode Sample.page (parentNode Sample.firstText) Sample.firstText
  = Some Sample.boldText
  ∧ findNextTextNode Sample.page (parentNode Sample.boldText) Sample.boldText = None.
Proof. split; reflexivity. Qed.

(** X2.  [getText] returns for every start node, offset and budget (the
    walk over the following text nodes always ends); it only appends to
    the list it is given; and for a start node that is not a text node
    it returns the empty string and the list untouched. *)
Theorem getText_always_returns (doc : Node) (startNode : NodeRef) (offset_ maxLength : Z)
    (selEndList : list SelEnd) :
  ∃ text l,
    getText doc startNode offset_ selEndList maxLength = Some (text, l)
    ∧ selEndList `prefix_of` l
    ∧ (isTextNode doc startNode = false → text = [] ∧ l = selEndList)
    ∧ (isTextNode doc startNode = true →
       ∃ e later, l = selEndList ++ e :: later ∧ node e = startNode).
Proof.
  destruct (nodeAt doc startNode) as [[data|nm f ks]|] eqn:Hnode.
  - rewrite (getText_unfold doc startNode data offset_ maxLength Hnode selEndList).
    eexists _, _. split; [done|]. split; [by apply prefix_app_r|].
    unfold isTextNode. rewrite Hnode. split; [done|]. intros _. by eexists _, _.
  - unfold getText, isTextNode. rewrite Hnode. exists [], selEndList. by split_and!.
  - unfold getText, isTextNode. rewrite Hnode. exists [], selEndList. by split_and!.
Qed.

Section checkpoints_and_ranges.
Import Reading.
Implicit Types (doc : Node) (p : NodeRef) (l : list SelEnd) (R : list NodeRef).

(** The piece of the buffer a checkpoint after the first stands for. *)
Lemma collectFrom_pieces doc budget R :
  (collectFrom doc budget R).1
  = concat (map (λ e, substring (dataOf doc (node e)) 0 (offset e))
              (collectFrom doc budget R).2).
Proof.
  revert budget. induction R as [|p R IH]; intros budget; simpl; [done|].
  destruct (0 <? budget)%Z; [|done].
  specialize (IH (budget - Z.min budget (jslength (dataOf doc p)))%Z).
  destruct (collectFrom doc _ R) as [t l]. simpl in *. by rewrite IH.
Qed.

Lemma collectFrom_length_le doc budget R :
  (0 ≤ budget)%Z → (jslength (collectFrom doc budget R).1 ≤ budget)%Z.
Proof.
  intros Hb. rewrite collectFrom_text by done. unfold jslength. rewrite length_take. lia.
Qed.

(** Projecting a positive length through the checkpoints of the
    following nodes stops in the node where the buffer's prefix of that
    length ends, all earlier nodes having been taken whole. *)
Lemma collectFrom_project doc R :
  NoDup R →
  ∀ budget k prev,
    (0 < k ≤ jslength (collectFrom doc budget R).1)%Z →
    ∃ e off,
      selEndLoop (collectFrom doc budget R).2 prev k = (Some e, off)
      ∧ (0 < off ≤ offset e)%Z
      ∧ (offset e ≤ jslength (dataOf doc (node e)))%Z
      ∧ node e ∈ R
      ∧ concat (map (dataOf doc) (before (node e) R))
        ++ take (Z.to_nat off) (dataOf doc (node e))
        = take (Z.to_nat k) (collectFrom doc budget R).1.
Proof.
  induction R as [|p R IH]; intros Hnd budget k prev Hk.
  { simpl in Hk. unfold jslength in Hk. simpl in Hk. lia. }
  apply NoDup_cons in Hnd as [Hp Hnd]. simpl in *.
  destruct (0 <? budget)%Z eqn:Hpos;
    [|simpl in Hk; unfold jslength in Hk; simpl in Hk; lia].
  pose proof (jslength_nonneg (dataOf doc p)) as Hd.
  set (e := Z.min budget (jslength (dataOf doc p))) in *.
  pose proof (collectFrom_length_le doc (budget - e) R ltac:(lia)) as Hle.
  specialize (IH Hnd (budget - e)%Z).
  destruct (collectFrom doc (budget - e) R) as [t l] eqn:Hc. simpl in *.
  rewrite jslength_app, substring_length in Hk by lia.
  rewrite substring_take_drop by lia. rewrite Z.sub_0_r.
  change (Z.to_nat 0) with 0. rewrite drop_0.
  destruct (k <=? e)%Z eqn:Hke.
  - exists {| node := p; offset := e |}, k. simpl.
    rewrite decide_True by done. simpl.
    split; [done|]. split; [lia|]. split; [lia|]. split; [left|].
    rewrite take_app_le by (rewrite length_take; unfold jslength in *; lia).
    rewrite take_take. f_equal. lia.
  - assert (e = jslength (dataOf doc p)) as He by lia.
    destruct (IH (k - e)%Z (Some {| node := p; offset := e |}) ltac:(lia))
      as (e' & off & Hloop & Hoff & Hnode & Hin & Htext).
    exists e', off. rewrite Hloop. split; [done|]. split; [done|]. split; [done|].
    split; [by right|].
    rewrite decide_False by (intros ->; done). simpl.
    rewrite <- app_assoc, Htext.
    rewrite (take_ge (dataOf doc p)) by (unfold jslength in *; lia).
    rewrite take_app_ge by (unfold jslength in *; lia).
    f_equal. f_equal. unfold jslength in *. lia.
Qed.

End checkpoints_and_ranges.

(** X3.  The checkpoints describe the buffer exactly: the first is the
    start node, no text node is recorded twice, and the buffer is the
    start node's data from the start offset to the first recorded offset
    followed by each later node's data up to its recorded offset. *)
Theorem getText_buffer_from_checkpoints (doc : Node) (startNode : NodeRef) (data : ustring)
    (offset_ : Z) (n : nat) (text : ustring) (l : list SelEnd) :
  nodeAt doc startNode = Some (Text data) →
  (0 ≤ offset_ < jslength data)%Z →
  getText doc startNode offset_ [] (Z.of_nat n) = Some (text, l) →
  ∃ e later,
    l = e :: later
    ∧ node e = startNode
    ∧ NoDup (map node l)
    ∧ text = substring data offset_ (offset e)
             ++ concat (map (λ c, substring (dataOf doc (node c)) 0 (offset c)) later).
Proof.
  intros Hstart Hoff. rewrite (getText_unfold doc startNode data offset_ _ Hstart []).
  intros [= <- <-]. eexists _, _. split; [done|]. split; [done|]. split.
  - destruct (followingTextNodes_spec doc startNode data Hstart)
      as (earlier & _ & _ & Hnf & Hnd).
    destruct (collectFrom_offsets doc
                (Z.of_nat n - jslength (substring data offset_
                                          (Z.min (jslength data) (offset_ + Z.of_nat n))))
                (followingTextNodes doc startNode)) as (_ & _ & Hpre).
    simpl. apply NoDup_cons. split.
    + intros Hin. apply Hnf. by eapply elem_of_prefix.
    + destruct Hpre as [k Hk]. rewrite Hk in Hnd. by apply NoDup_app in Hnd as [? _].
  - simpl. f_equal. apply collectFrom_pieces.
Qed.

Lemma getText_buffer_from_checkpoints_witness :
  ∃ e later,
    [{| node := Sample.firstText; offset := 5 |}; {| node := Sample.boldText; offset := 2 |}]
    = e :: later
    ∧ node e = Sample.firstText
    ∧ NoDup (map node [{| node := Sample.firstText; offset := 5 |};
                       {| node := Sample.boldText; offset := 2 |}])
    ∧ [Sample.zhong; Sample.guo; Sample.ren; Sample.min]
      = substring [Sample.ni; Sample.hao; Sample.ma; Sample.zhong; Sample.guo] 3 (offset e)
        ++ concat (map (λ c, substring (dataOf Sample.page (node c)) 0 (offset c)) later).
Proof.
  apply (getText_buffer_from_checkpoints Sample.page Sample.firstText
           [Sample.ni; Sample.hao; Sample.ma; Sample.zhong; Sample.guo] 3 7).
  - reflexivity.
  - vm_compute. split; [discriminate|reflexivity].
  - reflexivity.
Defined.

(** Where the loop of [highlightMatch] ends on the checkpoints of
    [getText], for a length within the buffer: at a boundary point that
    exists in the document, the text from the start position to it being
    the buffer's prefix of that length. *)
Lemma getText_projectEnd (doc : Node) (startNode : NodeRef) (data : ustring)
    (offset_ : Z) (n : nat) (text : ustring) (l : list SelEnd) (m : nat) :
  nodeAt doc startNode = Some (Text data) →
  (0 ≤ offset_ < jslength data)%Z →
  getText doc startNode offset_ [] (Z.of_nat n) = Some (text, l) →
  m ≤ length text →
  ∃ endNode endOffset,
    projectEnd offset_ (Z.of_nat m) l = Some (endNode, endOffset)
    ∧ (0 ≤ endOffset ≤ nodeLength doc endNode)%Z
    ∧ Reading.textOfRange doc
        {| Content.startContainer := startNode; Content.startOffset := offset_;
           Content.endContainer := endNode; Content.endOffset := endOffset |}
      = take m text.
Proof.
  intros Hstart Hoff Hget Hm.
  pose proof (getText_text doc startNode data offset_ (Z.of_nat n) Hstart Hoff
                ltac:(lia) _ _ _ Hget) as Hlen.
  apply (f_equal length) in Hlen. rewrite length_take in Hlen.
  revert Hget. rewrite (getText_unfold doc startNode data offset_ _ Hstart []).
  set (E0 := Z.min (jslength data) (offset_ + Z.of_nat n)).
  set (first := substring data offset_ E0).
  assert (jslength first = (E0 - offset_)%Z) as Hfirst
    by (apply substring_length; unfold E0; lia).
  assert (first = take (Z.to_nat (E0 - offset_)) (drop (Z.to_nat offset_) data)) as Hfirst'
    by (apply substring_take_drop; unfold E0; lia).
  intros [= <- <-]. unfold projectEnd. simpl.
  rewrite length_app in Hm, Hlen.
  destruct (offset_ + Z.of_nat m <=? E0)%Z eqn:Hcase.
  - eexists _, _. split; [done|].
    split; [simpl; unfold nodeLength; rewrite Hstart; unfold E0 in *; lia|].
    unfold Reading.textOfRange. simpl.
    rewrite decide_True by done. rewrite (dataOf_text _ _ _ Hstart).
    rewrite substring_take_drop by (unfold E0 in *; lia).
    rewrite take_app_le by (unfold jslength in Hfirst; lia).
    rewrite Hfirst', take_take. f_equal; lia.
  - assert (E0 = jslength data) as HE0 by (unfold E0, jslength in *; lia).
    assert (first = drop (Z.to_nat offset_) data) as Hwhole.
    { rewrite Hfirst'. apply take_ge. rewrite length_drop. unfold jslength in *. lia. }
    destruct (followingTextNodes_spec doc startNode data Hstart)
      as (earlier & _ & _ & Hnf & Hnd).
    destruct (collectFrom_project doc (followingTextNodes doc startNode) Hnd
                (Z.of_nat n - jslength first)%Z (offset_ + Z.of_nat m - E0)%Z
                (Some {| node := startNode; offset := E0 |}))
      as (e & off & Hloop & Hoffe & Hnode & Hin & Htext).
    { unfold jslength in *. lia. }
    rewrite Hloop. eexists _, _. split; [done|]. split.
    { unfold nodeLength, dataOf, nodeData in *.
      destruct (nodeAt doc (node e)) as [[d|? ? ?]|]; simpl in *;
        unfold jslength in *; simpl in *; lia. }
    unfold Reading.textOfRange. simpl.
    rewrite decide_False by (intros Heq; by rewrite <- Heq in Hin).
    rewrite (dataOf_text _ _ _ Hstart), Htext, <- Hwhole.
    rewrite take_app_ge by (unfold jslength in *; lia).
    f_equal. f_equal. unfold jslength in *. lia.
Qed.


(** X4.  Projecting a match length through the checkpoints gives the
    right end: for every [m ≤ len(buffer)], the end boundary computed by
    the loop of [highlightMatch] is such that the characters between the
    start position and that boundary are exactly the first [m] code
    units of the buffer. *)
Theorem projectEnd_covers_prefix (doc : Node) (startNode : NodeRef) (data : ustring)
    (offset_ : Z) (n : nat) (text : ustring) (l : list SelEnd) (m : nat) :
  nodeAt doc startNode = Some (Text data) →
  (0 ≤ offset_ < jslength data)%Z →
  getText doc startNode offset_ [] (Z.of_nat n) = Some (text, l) →
  m ≤ length text →
  ∃ endNode endOffset,
    projectEnd offset_ (Z.of_nat m) l = Some (endNode, endOffset)
    ∧ Reading.textOfRange doc
        {| Content.startContainer := startNode; Content.startOffset := offset_;
           Content.endContainer := endNode; Content.endOffset := endOffset |}
      = take m text.
Proof.
  intros Hstart Hoff Hget Hm.
  destruct (getText_projectEnd doc startNode data offset_ n text l m Hstart Hoff Hget Hm)
    as (endNode & endOffset & Hp & _ & Htext).
  by exists endNode, endOffset.
Qed.

Lemma projectEnd_covers_prefix_witness :
  ∃ endNode endOffset,
    projectEnd 0 (Z.of_nat 6)
      [{| node := Sample.firstText; offset := 5 |}; {| node := Sample.boldText; offset := 2 |}]
    = Some (endNode, endOffset)
    ∧ Reading.textOfRange Sample.page
        {| Content.startContainer := Sample.firstText; Content.startOffset := 0;
           Content.endContainer := endNode; Content.endOffset := endOffset |}
      = take 6 [Sample.ni; Sample.hao; Sample.ma; Sample.zhong; Sample.guo;
                Sample.ren; Sample.min].
Proof.
  apply (projectEnd_covers_prefix Sample.page Sample.firstText
           [Sample.ni; Sample.hao; Sample.ma; Sample.zhong; Sample.guo] 0 7).
  - reflexivity.
  - vm_compute. split; [discriminate|reflexivity].
  - reflexivity.
  - simpl. lia.
Defined.

(** ** More on the highlight length *)

Lemma skipJoiners_step (T : ustring) (hl : nat) :
  Content.skipJoiners T hl
  = if bool_decide (T !! hl = Some Content.zwnj) then Content.skipJoiners T (S hl) else hl.
Proof. apply skipJoiners_unfold. Qed.

Section highlight_length_more.
Import Content.
Implicit Types (T : ustring) (m hl : nat).

Lemma skipJoiners_stops T hl : T !! skipJoiners T hl ≠ Some zwnj.
Proof.
  remember (length T - hl) as k eqn:Hk. revert hl Hk.
  induction k as [k IH] using lt_wf_ind. intros hl Hk.
  rewrite skipJoiners_step. case_bool_decide as Hc; [|congruence].
  pose proof (lookup_lt_Some _ _ _ Hc). apply (IH (length T - S hl)); lia.
Qed.

Lemma highlightLoop_last T m hl :
  1 ≤ highlightLoop T (S m) hl
  ∧ T !! (highlightLoop T (S m) hl - 1) ≠ Some zwnj.
Proof.
  revert hl. induction m as [|m IH]; intros hl.
  - simpl. rewrite Nat.sub_0_r. split; [lia|apply skipJoiners_stops].
  - change (highlightLoop T (S (S m)) hl)
      with (highlightLoop T (S m) (S (skipJoiners T hl))). apply IH.
Qed.

Lemma joinersBefore_mono T m : joinersBefore T m ≤ joinersBefore T (S m).
Proof.
  revert m. induction T as [|c T IH]; intros m; [by rewrite !joinersBefore_nil|].
  destruct m as [|m]; simpl; [lia|].
  case_decide; [specialize (IH (S m)); simpl in IH; lia|apply IH].
Qed.

Lemma occurrences_take_le c T k : occurrences c (take k T) ≤ occurrences c T.
Proof.
  rewrite <- (take_drop k T) at 2. rewrite occurrences_app. lia.
Qed.

End highlight_length_more.

(** X5.  The highlight length grows strictly with the match length,
    lies between [m] and [m] plus the number of U+200C in the text (so it
    is [m] when the text has none), and for a match of at least one
    character the last highlighted code unit is never a U+200C. *)
Theorem highlightLength_bounds (T : ustring) (m : nat) :
  (m ≤ Content.highlightLength T m ≤ m + occurrences Content.zwnj T)
  ∧ Content.highlightLength T m < Content.highlightLength T (S m)
  ∧ T !! (Content.highlightLength T (S m) - 1) ≠ Some Content.zwnj.
Proof.
  unfold Content.highlightLength. rewrite !highlightLoop_joinersBefore, drop_0. simpl.
  pose proof (joinersBefore_occurrences T m) as Hocc.
  pose proof (occurrences_take_le Content.zwnj T (m + Content.joinersBefore T m)).
  pose proof (joinersBefore_mono T m).
  split; [lia|]. split; [lia|].
  pose proof (highlightLoop_last T m 0) as [_ Hlast].
  rewrite highlightLoop_joinersBefore, drop_0 in Hlast. exact Hlast.
Qed.

(** With two joiners in front of 中 a match of one character covers
    three code units and ends on 中. *)
Example highlightLength_leading_joiners :
  Content.highlightLength [Content.zwnj; Content.zwnj; Sample.zhong; Sample.guo] 1 = 3.
Proof. reflexivity. Qed.

(** ** What the handlers leave alone *)

Section frame.
Import Content Frame.
Variable env : Browser.

Lemma unchanged_ret {A B} (part : State → B) (a : A) : Unchanged part (ret a).
Proof. by intros s o s' [= <- <-]. Qed.

Lemma unchanged_throw {A B} (part : State → B) e : Unchanged part (@throw A e).
Proof. by intros s o s' [= <- <-]. Qed.

Lemma unchanged_outOfFuel {A B} (part : State → B) : Unchanged part (@outOfFuel A).
Proof. by intros s o s' [= <- <-]. Qed.

Lemma unchanged_get {B} (part : State → B) : Unchanged part get.
Proof. by intros s o s' [= <- <-]. Qed.

Lemma unchanged_bind {A A' B} (part : State → B) (m : M A) (k : A → M A') :
  Unchanged part m → (∀ a, Unchanged part (k a)) → Unchanged part (m ≫= k).
Proof.
  intros Hm Hk s o s'. unfold mbind, M_bind, bind.
  destruct (m s) as [[a| |] s1] eqn:Hms; intros Heq.
  - rewrite (Hk a _ _ _ Heq). by apply (Hm _ _ _ Hms).
  - injection Heq as <- <-. by apply (Hm _ _ _ Hms).
  - injection Heq as <- <-. by apply (Hm _ _ _ Hms).
Qed.

Lemma unchanged_modify {B} (part : State → B) (f : State → State) :
  (∀ s, part (f s) = part s) → Unchanged part (modify f).
Proof. intros Hf s o s' [= <- <-]. apply Hf. Qed.

End frame.

(** Follows the structure of a handler down to its assignments, opening
    the helper functions on the way. *)
Ltac unchanged :=
  repeat match goal with
    | |- Frame.Unchanged _ (Content.ret _) => apply unchanged_ret
    | |- Frame.Unchanged _ (Content.throw _) => apply unchanged_throw
    | |- Frame.Unchanged _ Content.outOfFuel => apply unchanged_outOfFuel
    | |- Frame.Unchanged _ Content.get => apply unchanged_get
    | |- Frame.Unchanged _ (mbind _ _) => apply unchanged_bind; [|intros ?]
    | |- Frame.Unchanged _ (Content.modify _) =>
        apply unchanged_modify; intros [];
        repeat match goal with
          | |- context [match ?x with _ => _ end] => destruct x
          end; reflexivity
    | |- Frame.Unchanged _ (match ?x with _ => _ end) => destruct x
    | |- Frame.Unchanged _ (Content.clearHighlight _) => unfold Content.clearHighlight
    | |- Frame.Unchanged _ Content.hidePopup => unfold Content.hidePopup
    | |- Frame.Unchanged _ (Content.log _ _) => unfold Content.log
    | |- Frame.Unchanged _ (Content.reference _ _) => unfold Content.reference
    | |- Frame.Unchanged _ (Content.setBoundary _ _ _) => unfold Content.setBoundary
    | |- Frame.Unchanged _ (Content.showPopup _ _ _ _ _) => unfold Content.showPopup
    | |- Frame.Unchanged _ (Content.highlightMatch _ _ _ _ _) =>
        unfold Content.highlightMatch
    | |- Frame.Unchanged _ (Content.processSearchResult _ _) =>
        unfold Content.processSearchResult
    | |- Frame.Unchanged _ Content.enableTabs => unfold Content.enableTabs
    | |- Frame.Unchanged _ (Content.disableTabs _) => unfold Content.disableTabs
    | |- Frame.Unchanged _ (Content.onMessage _ _) => unfold Content.onMessage
    | |- Frame.Unchanged _ (Content.makeSearch _) => unfold Content.makeSearch
    | |- Frame.Unchanged _ (Content.clearTimeout _) => unfold Content.clearTimeout
    | |- Frame.Unchanged _ Content.setTimer => unfold Content.setTimer
    | |- Frame.Unchanged _ (Content.onMouseMove _ _) => unfold Content.onMouseMove
    end.

Section frame_facts.
Import Content Frame.
Variable env : Browser.

(** Showing, hiding, highlighting and message handling never touch the
    timers. *)
Lemma processSearchResult_timers result :
  Unchanged timers (processSearchResult env result).
Proof. unchanged. Qed.

Lemma onMessage_timers request : Unchanged timers (onMessage env request).
Proof. unchanged. Qed.

Lemma makeSearch_timers : Unchanged timers (makeSearch env).
Proof. unchanged. Qed.

(** Only [makeSearch] sends. *)
Lemma processSearchResult_sent result : Unchanged sent (processSearchResult env result).
Proof. unchanged. Qed.

Lemma onMessage_sent request : Unchanged sent (onMessage env request).
Proof. unchanged. Qed.

Lemma onMouseMove_sent mouseMove : Unchanged sent (onMouseMove env mouseMove).
Proof. unchanged. Qed.

End frame_facts.

(** ** The lookup request *)

Section make_search.
Import Content Frame.
Variable env : Browser.

(** [clearHighlight(); hidePopup(); return c] always returns [c], with
    the popup hidden, and touches neither the outbox nor the checkpoints. *)
Lemma clear_hide_returns {A} (c : A) (s : State) :
  ∃ s', (clearHighlight env;; hidePopup;; ret c) s = (Return c, s')
        ∧ popupShown s' = false
        ∧ sent s' = sent s
        ∧ savedSelEndList s' = savedSelEndList s
        ∧ timers s' = timers s.
Proof.
  unfold clearHighlight, hidePopup, mbind, M_bind, bind, get, modify, ret, popupShown.
  simpl. destruct (selText s); simpl;
    try destruct (isCollapsed (selection s) || _); simpl;
    destruct (popup s) eqn:Hp; simpl;
    (eexists; split; [reflexivity|]; simpl; rewrite ?Hp; done).
Qed.

Lemma replace_shorter pat s : length (replace pat [] s) ≤ length s.
Proof.
  destruct (replace_first pat s) as [(a & b & -> & -> & _)|[-> _]]; [|done].
  rewrite !length_app. lia.
Qed.

Lemma makeSearch_cases (s : State) :
  ∃ o s',
    makeSearch env s = (o, s')
    ∧ ((o = Return 0%Z
        ∧ ∃ textNode buffer l,
            savedTextNode s = Some textNode
            ∧ getText (document env) textNode (savedOffset s) [] defaultMaxLength
              = Some (buffer, l)
            ∧ 1 ≤ length buffer ≤ 7
            ∧ savedSelEndList s' = l
            ∧ sent s'
              = sent s ++ [{| Request.type := "search";
                              Request.text := replace (lit "&zwnj") [] buffer;
                              Request.originalText := buffer;
                              Request.selStartOffset := savedOffset s |}]
            ∧ popup s' = popup s ∧ selection s' = selection s ∧ timers s' = timers s)
       ∨ (o = Return 1%Z ∧ savedTextNode s = None
          ∧ sent s' = sent s ∧ savedSelEndList s' = savedSelEndList s
          ∧ popupShown s' = false)
       ∨ (o = Return 2%Z
          ∧ (∃ textNode, savedTextNode s = Some textNode
               ∧ ((savedOffset s < 0)%Z
                  ∨ ∃ d, nodeData (document env) textNode = Some d
                         ∧ (jslength d ≤ savedOffset s)%Z))
          ∧ sent s' = sent s ∧ savedSelEndList s' = savedSelEndList s
          ∧ popupShown s' = false)
       ∨ ((∃ what, o = Throw (TypeError what)) ∧ s' = s
          ∧ ∃ textNode, savedTextNode s = Some textNode
              ∧ nodeData (document env) textNode = None ∧ (0 ≤ savedOffset s)%Z)).
Proof.
  unfold makeSearch.
  change ((get ≫= ?k) s) with (k s s). cbv beta.
  destruct (savedTextNode s) as [textNode|] eqn:Hnode.
  - destruct (savedOffset s <? 0)%Z eqn:Hneg.
    + destruct (clear_hide_returns 2%Z s) as (s' & Hrun & Hpop & Hsent & Hl & _).
      exists (Return 2%Z), s'. split; [exact Hrun|].
      right. right. left. split; [done|]. split; [|done].
      exists textNode. split; [done|]. left. lia.
    + destruct (nodeData (document env) textNode) as [d|] eqn:Hdata.
      * destruct (jslength d <=? savedOffset s)%Z eqn:Hout.
        -- destruct (clear_hide_returns 2%Z s) as (s' & Hrun & Hpop & Hsent & Hl & _).
           exists (Return 2%Z), s'. split; [exact Hrun|].
           right. right. left. split; [done|]. split; [|done].
           exists textNode. split; [done|]. right. exists d. split; [done|lia].
        -- assert (nodeAt (document env) textNode = Some (Text d)) as Hat.
           { unfold nodeData in Hdata.
             destruct (nodeAt (document env) textNode) as [[?|? ? ?]|]; congruence. }
           pose proof (getText_unfold (document env) textNode d (savedOffset s)
                         defaultMaxLength Hat []) as Hget.
           eexists _, _. split.
           { unfold mbind, M_bind, bind, ret. simpl. rewrite Hget. reflexivity. }
           left. split; [done|]. eexists textNode, _, _.
           split; [done|]. split; [exact Hget|]. split; [|done].
           pose proof (getText_text (document env) textNode d (savedOffset s)
                         defaultMaxLength Hat ltac:(lia) ltac:(done) _ _ _ Hget) as Ht.
           rewrite Ht, length_take. unfold remainingText.
           rewrite (dataOf_text _ _ _ Hat), length_app, length_drop.
           unfold jslength in *. change (Z.to_nat defaultMaxLength) with 7. lia.
      * exists (Throw (TypeError "textNode.data is undefined")), s.
        split; [reflexivity|]. right. right. right.
        split; [eauto|]. split; [done|]. exists textNode. split; [done|]. split; [done|lia].
  - destruct (clear_hide_returns 1%Z s) as (s' & Hrun & Hpop & Hsent & Hl & _).
    exists (Return 1%Z), s'. split; [exact Hrun|]. right. left. done.
Qed.

End make_search.

(** X6.  [makeSearch] ends in one of four ways and never otherwise: it
    returns 0 after sending exactly one [search] request, whose
    [originalText] has between 1 and 7 code units, whose [text] is no
    longer, and whose [selStartOffset] is the saved offset, recording the
    checkpoints and leaving popup, selection and timers alone; it returns
    1 (no saved text node) or 2 (saved offset negative or not inside the
    node) after hiding the popup, sending nothing and keeping the old
    checkpoints; or it throws a [TypeError] with the state untouched when
    the saved node has no [data] and the offset is not negative. *)
Theorem makeSearch_outcomes (env : Content.Browser) (s : Content.State) :
  ∃ o s',
    Content.makeSearch env s = (o, s')
    ∧ ((o = Content.Return 0%Z
        ∧ ∃ request,
            Content.sent s' = Content.sent s ++ [request]
            ∧ Request.type request = "search"
            ∧ Request.selStartOffset request = Content.savedOffset s
            ∧ 1 ≤ length (Request.originalText request) ≤ 7
            ∧ length (Request.text request) ≤ length (Request.originalText request)
            ∧ Content.hoveredText env s = Some (Request.originalText request)
            ∧ Content.popup s' = Content.popup s
            ∧ Content.selection s' = Content.selection s
            ∧ Frame.timers s' = Frame.timers s)
       ∨ (o = Content.Return 1%Z ∧ Content.savedTextNode s = None
          ∧ Content.sent s' = Content.sent s
          ∧ Content.savedSelEndList s' = Content.savedSelEndList s
          ∧ Content.popupShown s' = false)
       ∨ (o = Content.Return 2%Z
          ∧ (∃ textNode, Content.savedTextNode s = Some textNode
               ∧ ((Content.savedOffset s < 0)%Z
                  ∨ ∃ d, nodeData (Content.document env) textNode = Some d
                         ∧ (jslength d ≤ Content.savedOffset s)%Z))
          ∧ Content.sent s' = Content.sent s
          ∧ Content.savedSelEndList s' = Content.savedSelEndList s
          ∧ Content.popupShown s' = false)
       ∨ ((∃ what, o = Content.Throw (TypeError what)) ∧ s' = s
          ∧ ∃ textNode, Content.savedTextNode s = Some textNode
              ∧ nodeData (Content.document env) textNode = None
              ∧ (0 ≤ Content.savedOffset s)%Z)).
Proof.
  destruct (makeSearch_cases env s) as (o & s' & Hrun & Hcases).
  exists o, s'. split; [exact Hrun|].
  destruct Hcases as [(Ho & textNode & buffer & l & Hn & Hget & Hlen & Hl & Hsent & Hrest)
                     |[H|[H|H]]]; [|auto|auto|auto].
  left. split; [done|]. eexists. split; [exact Hsent|]. simpl.
  split; [done|]. split; [done|]. split; [done|]. split; [apply replace_shorter|].
  split; [|done]. unfold Content.hoveredText. by rewrite Hn, Hget.
Qed.

(** On the sample page: no hover yet, a hover on 你, and an offset past
    the end of the text. *)
Example makeSearch_return_codes :
  (Content.makeSearch (Sample.browser 300) Content.initial).1 = Content.Return 1%Z
  ∧ (Content.makeSearch (Sample.browser 300) Sample.pendingLookup).1 = Content.Return 0%Z
  ∧ (Content.makeSearch (Sample.browser 300)
       (Content.set_savedOffset 5 Sample.pendingLookup)).1 = Content.Return 2%Z
  ∧ (Content.makeSearch (Sample.browser 300)
       (Content.set_savedTextNode (Some Sample.paragraph) Sample.pendingLookup)).1
    = Content.Throw (TypeError "textNode.data is undefined").
Proof. split_and!; reflexivity. Qed.

(** ** Requests and timers over sequences of events *)

Section event_sequences.
Import Content Frame.
Variable env : Browser.

Lemma handle_sent ev s o s' :
  handle env ev s = (o, s') →
  ∃ new, sent s' = sent s ++ new
         ∧ length new ≤ firings [ev]
         ∧ Forall (λ request, Request.type request = "search") new.
Proof.
  assert (∀ n, sent s' = sent s →
               ∃ new, sent s' = sent s ++ new ∧ length new ≤ n
                      ∧ Forall (λ request, Request.type request = "search") new) as Hnone.
  { intros n ->. exists []. rewrite app_nil_r. split; [done|]. split; [simpl; lia|done]. }
  destruct ev as [mouseMove|id|request|result]; simpl.
  - intros H. apply Hnone. revert H. generalize s o s'.
    change (Unchanged sent (get ≫= λ s0, if listening s0 then onMouseMove env mouseMove
                                          else ret ())).
    unchanged.
  - change ((get ≫= ?k) s) with (k s s). cbv beta.
    case_bool_decide; [|intros [= <- <-]; by apply Hnone].
    unfold clearTimeout. unfold mbind at 1. unfold M_bind, bind at 1, modify.
    set (s1 := set_timeouts _ s).
    destruct (makeSearch_cases env s1) as (o1 & s2 & Hrun & Hcases).
    unfold mbind, M_bind, bind. rewrite Hrun.
    assert (sent s2 = sent s ∨ ∃ request, sent s2 = sent s ++ [request]
                                         ∧ Request.type request = "search") as Hs2.
    { destruct Hcases as [(_ & t & b & l & _ & _ & _ & _ & Hsent & _)
                         |[(_ & _ & Hsent & _)|[(_ & _ & Hsent & _)|(_ & -> & _)]]];
        eauto. }
    assert (s' = s2 → ∃ new, sent s' = sent s ++ new ∧ length new ≤ 1
                             ∧ Forall (λ request, Request.type request = "search") new)
      as Hfinal.
    { intros ->. destruct Hs2 as [Hs|(request & -> & Hty)]; [by apply Hnone|].
      exists [request]. split; [done|]. split; [done|]. by constructor. }
    destruct o1; intros [= <- <-]; by apply Hfinal.
  - intros H. apply Hnone. by apply (onMessage_sent env request _ _ _ H).
  - intros H. apply Hnone. by apply (processSearchResult_sent env result _ _ _ H).
Qed.

Lemma dispatch_sent s ev :
  ∃ new, sent (dispatch env s ev) = sent s ++ new
         ∧ length new ≤ firings [ev]
         ∧ Forall (λ request, Request.type request = "search") new.
Proof.
  unfold dispatch. destruct (handle env ev s) as [o s'] eqn:H.
  destruct (handle_sent _ _ _ _ H) as (new & Hnew). exists new. by destruct o.
Qed.

Lemma firings_cons ev evs : firings (ev :: evs) = firings [ev] + firings evs.
Proof. destruct ev; simpl; lia. Qed.

Lemma run_sent evs s :
  ∃ new, sent (run env evs s) = sent s ++ new
         ∧ length new ≤ firings evs
         ∧ Forall (λ request, Request.type request = "search") new.
Proof.
  unfold run. revert s. induction evs as [|ev evs IH]; intros s; simpl.
  - exists []. by rewrite app_nil_r.
  - destruct (dispatch_sent s ev) as (new1 & H1 & Hl1 & Hf1).
    destruct (IH (dispatch env s ev)) as (new2 & H2 & Hl2 & Hf2).
    exists (new1 ++ new2). rewrite H2, H1, <- app_assoc. split; [done|]. split.
    + rewrite length_app. destruct ev; simpl in *; lia.
    + by apply Forall_app.
Qed.

(** *** At most one pending lookup *)

Lemma triple_ret {A} (P Q : State → Prop) (a : A) :
  (∀ s, P s → Q s) → Triple P (ret a) Q.
Proof. intros H s o s' HP [= <- <-]. auto. Qed.

Lemma triple_modify (P Q : State → Prop) (f : State → State) :
  (∀ s, P s → Q (f s)) → Triple P (modify f) Q.
Proof. intros H s o s' HP [= <- <-]. auto. Qed.

Lemma triple_get_bind {B} (P R : State → Prop) (k : State → M B) :
  (∀ a, Triple (λ s, P s ∧ s = a) (k a) R) → Triple P (get ≫= k) R.
Proof. intros H s o s' HP Hrun. by apply (H s s o s'). Qed.

Lemma triple_bind {A B} (P Q R : State → Prop) (m : M A) (k : A → M B) :
  Triple P m Q → (∀ s, Q s → R s) → (∀ a, Triple Q (k a) R) → Triple P (m ≫= k) R.
Proof.
  intros Hm HQR Hk s o s' HP. unfold mbind, M_bind, bind.
  destruct (m s) as [[a| |] s1] eqn:Hms; intros Heq.
  - apply (Hk a s1 o s'); [by apply (Hm _ _ _ HP Hms)|done].
  - injection Heq as <- <-. apply HQR. by apply (Hm _ _ _ HP Hms).
  - injection Heq as <- <-. apply HQR. by apply (Hm _ _ _ HP Hms).
Qed.

Lemma triple_unchanged {A B} (part : State → B) (P Q : State → Prop) (m : M A) :
  Unchanged part m → (∀ s s', part s' = part s → P s → Q s') → Triple P m Q.
Proof. intros Hu H s o s' HP Hrun. apply (H s s'); [by apply (Hu _ _ _ Hrun)|done]. Qed.

Lemma onePending_timers s s' : timers s' = timers s → onePending s → onePending s'.
Proof.
  unfold timers, onePending. intros [= H1 H2 H3] HP. by rewrite H1, H2, H3.
Qed.

Lemma nonePending_timers s s' : timers s' = timers s → nonePending s → nonePending s'.
Proof.
  unfold timers, nonePending. intros [= H1 H2 H3] HP. by rewrite H2, H3.
Qed.

Lemma nonePending_onePending s : nonePending s → onePending s.
Proof. intros [? ?]. split; [done|by left]. Qed.

(** Cancelling the timer held in [timer] leaves none armed. *)
Lemma cancel_timer_triple a :
  Triple (λ s, onePending s ∧ s = a)
    (match timer a with
     | Some (S _ as id) => clearTimeout id;; modify (set_timer None)
     | _ => ret tt
     end) nonePending.
Proof.
  intros s o s' [[Hn Hinv] <-].
  destruct (timer s) as [[|id]|] eqn:Htimer.
  - intros [= <- <-]. split; [done|].
    destruct Hinv as [?|(id' & _ & Ht & Hid)]; [done|]. injection Ht as <-. lia.
  - unfold clearTimeout, mbind, M_bind, bind, modify. intros [= <- <-].
    split; [done|]. simpl.
    destruct Hinv as [->|(id' & -> & Ht & Hid)]; [done|]. injection Ht as <-.
    rewrite filter_cons, decide_False by (intros H; by apply H). done.
  - intros [= <- <-]. split; [done|].
    destruct Hinv as [?|(id' & _ & Ht & Hid)]; done.
Qed.

Lemma setTimer_triple : Triple nonePending setTimer onePending.
Proof.
  apply triple_modify. intros s [Hn Ht]. split; simpl; [lia|]. right.
  exists (nextTimeout s). by rewrite Ht.
Qed.

Lemma onMouseMove_onePending mouseMove :
  Triple onePending (onMouseMove env mouseMove) onePending.
Proof.
  assert (Triple onePending (log "Neither caretPositionFromPoint nor caretRangeFromPoint supported" None) onePending)
    as Hlog by (apply (triple_unchanged timers); [unchanged|apply onePending_timers]).
  assert (∀ textNode off,
            Triple onePending
              (get ≫= λ s,
                 if bool_decide (savedTarget s = Some (target mouseMove)
                                 ∧ savedTextNode s = Some textNode ∧ savedOffset s = off)
                 then ret tt
                 else
                   match timer s with
                   | Some (S _ as id) => clearTimeout id;; modify (set_timer None)
                   | _ => ret tt
                   end;;
                   let '(textNode, offset_) :=
                     match hasText env textNode with
                     | Some d =>
                         if (off =? jslength d)%Z
                         then (findNextTextNode (document env) (parentNode textNode)
                                 textNode, 0%Z)
                         else (Some textNode, off)
                     | None => (Some textNode, off)
                     end in
                   let '(textNode, offset_) :=
                     match textNode with
                     | Some t =>
                         if bool_decide (parentNode t = Some (target mouseMove))
                         then (Some t, offset_) else (None, (-1)%Z)
                     | None => (None, (-1)%Z)
                     end in
                   modify (set_savedTarget (Some (target mouseMove)));;
                   modify (set_savedTextNode textNode);;
                   modify (set_savedOffset offset_);;
                   let overText :=
                     match textNode ≫= hasText env with
                     | Some d => (offset_ <? jslength d)%Z
                     | None => false
                     end in
                   if overText then
                     modify (set_popupX (clientX mouseMove));;
                     modify (set_popupY (clientY mouseMove));;
                     setTimer
                   else
                     s ← get;
                     let dx := (popupX s - clientX mouseMove)%Z in
                     let dy := (popupY s - clientY mouseMove)%Z in
                     if (16 <? dx * dx + dy * dy)%Z then clearHighlight env;; hidePopup
                     else ret tt) onePending) as Hbody.
  { intros textNode off. apply triple_get_bind. intros a.
    case_bool_decide; [apply triple_ret; by intros s [? _]|].
    apply (triple_bind _ nonePending);
      [apply cancel_timer_triple|apply nonePending_onePending|intros _].
    destruct (match hasText env textNode with
              | Some d => _
              | None => _
              end) as [textNode1 off1].
    destruct (match textNode1 with
              | Some t => _
              | None => _
              end) as [textNode2 off2].
    do 3 (apply (triple_bind _ nonePending);
          [apply (triple_unchanged timers); [unchanged|apply nonePending_timers]
          |apply nonePending_onePending|intros _]).
    cbv zeta. case_match.
    - do 2 (apply (triple_bind _ nonePending);
            [apply (triple_unchanged timers); [unchanged|apply nonePending_timers]
            |apply nonePending_onePending|intros _]).
      apply setTimer_triple.
    - apply (triple_unchanged timers); [unchanged|].
      intros s s' Ht Hs. apply nonePending_onePending. by apply (nonePending_timers s). }
  unfold onMouseMove.
  destruct (caretApi env); [| |exact Hlog].
  all: destruct (caret mouseMove) as [[textNode off]|];
    [apply Hbody|apply triple_ret; auto].
Qed.

Lemma handle_onePending ev : Triple onePending (handle env ev) onePending.
Proof.
  destruct ev as [mouseMove|id|request|result]; simpl.
  - apply triple_get_bind. intros a. case_match.
    + intros s o s' [HP _]. by apply onMouseMove_onePending.
    + apply triple_ret. by intros s [? _].
  - apply triple_get_bind. intros a.
    case_bool_decide; [|apply triple_ret; by intros s [? _]].
    apply (triple_bind _ onePending); [|done|intros _].
    + unfold clearTimeout. apply triple_modify. intros s [[Hn Hinv] _].
      split; [done|]. simpl. destruct Hinv as [->|(id' & -> & Ht & Hid)]; [by left|].
      rewrite filter_cons. case_decide; [right; by exists id'|by left].
    + apply (triple_unchanged timers); [unchanged|apply onePending_timers].
  - apply (triple_unchanged timers); [apply onMessage_timers|apply onePending_timers].
  - apply (triple_unchanged timers);
      [apply processSearchResult_timers|apply onePending_timers].
Qed.

Lemma dispatch_onePending s ev : onePending s → onePending (dispatch env s ev).
Proof.
  intros HP. unfold dispatch. destruct (handle env ev s) as [o s'] eqn:H.
  pose proof (handle_onePending ev _ _ _ HP H). by destruct o.
Qed.

Lemma run_onePending evs s : onePending s → onePending (run env evs s).
Proof.
  unfold run. revert s. induction evs as [|ev evs IH]; intros s HP; simpl; [done|].
  apply IH. by apply dispatch_onePending.
Qed.

End event_sequences.

(** X7.  Requests are sent by firing timeouts only: over any sequence
    of events handled from any state, the outbox only grows, every
    message added is a [search] request, and no more are added than
    timeouts fired. *)
Theorem requests_only_from_timeouts (env : Content.Browser) (evs : list Content.Event)
    (s : Content.State) :
  ∃ new,
    Content.sent (Content.run env evs s) = Content.sent s ++ new
    ∧ length new ≤ Frame.firings evs
    ∧ Forall (λ request, Request.type request = "search") new.
Proof. apply run_sent. Qed.

(** X8.  At most one lookup is pending: if at most one timeout is armed
    and it is the one held in [timer] (as in the initial state), the same
    is true after any sequence of mouse moves, timeouts, messages and
    responses; every move to a new position cancels the timeout armed
    by the previous one. *)
Theorem one_pending_lookup (env : Content.Browser) (evs : list Content.Event)
    (s : Content.State) :
  Frame.onePending s →
  Frame.onePending (Content.run env evs s)
  ∧ length (Content.timeouts (Content.run env evs s)) ≤ 1.
Proof.
  intros HP. pose proof (run_onePending env evs s HP) as Hrun. split; [done|].
  destruct Hrun as [_ [->|(id & -> & _)]]; simpl; lia.
Qed.

Lemma one_pending_lookup_witness :
  Frame.onePending Content.initial
  ∧ Frame.onePending
      (Content.run (Sample.browser 300)
         [Content.MessageReceived (Sample.message "enable"); Sample.hover 0 100 100;
          Sample.hover 1 110 100; Sample.hover 3 160 100] Content.initial)
  ∧ length (Content.timeouts
              (Content.run (Sample.browser 300)
                 [Content.MessageReceived (Sample.message "enable"); Sample.hover 0 100 100;
                  Sample.hover 1 110 100; Sample.hover 3 160 100] Content.initial)) ≤ 1.
Proof.
  assert (Frame.onePending Content.initial) as H0 by (split; [simpl; lia|by left]).
  split; [exact H0|]. apply (one_pending_lookup (Sample.browser 300) _ Content.initial H0).
Defined.

(** Three moves over 你好吗中国 arm the timeouts 1, 2 and 3 in turn; only
    the last is still armed. *)
Example three_moves_one_timeout :
  Content.timeouts
    (Content.run (Sample.browser 300)
       [Content.MessageReceived (Sample.message "enable"); Sample.hover 0 100 100;
        Sample.hover 1 110 100; Sample.hover 3 160 100] Content.initial) = [3].
Proof. reflexivity. Qed.

(** ** Disabling *)

Section disabled.
Import Content Frame.
Variable env : Browser.

Lemma moves_ignored_when_not_listening (moves : list MouseEvent) (s : State) :
  listening s = false → run env (map MouseMoved moves) s = s.
Proof.
  intros Hl. unfold run. induction moves as [|m moves IH]; simpl; [done|].
  unfold dispatch at 2. simpl.
  change ((get ≫= ?k) s) with (k s s). cbv beta. rewrite Hl. simpl. exact IH.
Qed.

Lemma disableTabs_result (s : State) :
  ∃ s', disableTabs env s = (Return tt, s')
        ∧ listening s' = false ∧ popup s' = None
        ∧ timers s' = timers s ∧ sent s' = sent s ∧ uncaught s' = uncaught s
        ∧ (selText s ≠ SelNull → ownSelection env s → selection s' = None)
        ∧ (selText s = SelNull ∨ foreignSelection env s → selection s' = selection s).
Proof.
  unfold disableTabs, clearHighlight, mbind, M_bind, bind, get, modify, ret,
    ownSelection, foreignSelection. simpl.
  destruct (isCollapsed (selection s)) eqn:Hc;
    destruct (selTextIs (selText s) (selectionToString env (selection s))) eqn:Ho;
    destruct (selText s) eqn:Hsel; simpl.
  all: eexists; split; [reflexivity|]; simpl.
  all: repeat split; try done.
  all: try (intros _ [?|?]; done).
  all: try (intros [?|[? ?]]; done).
Qed.

End disabled.



(** ** Responses without a match, and the highlight's life cycle *)

Section no_match_and_highlight.
Import Content Frame.
Variable env : Browser.

Lemma hide_clear_result (s : State) :
  ∃ s', (hidePopup;; clearHighlight env) s = (Return tt, s')
        ∧ popup s' = (λ p, {| innerHTML := []; top := top p; left := left p;
                              displayed := false |}) <$> popup s
        ∧ timers s' = timers s ∧ sent s' = sent s ∧ uncaught s' = uncaught s
        ∧ savedSelEndList s' = savedSelEndList s
        ∧ (selText s ≠ SelNull → ownSelection env s → selection s' = None)
        ∧ (selText s = SelNull ∨ foreignSelection env s → selection s' = selection s).
Proof.
  unfold hidePopup, clearHighlight, mbind, M_bind, bind, get, modify, ret,
    ownSelection, foreignSelection. simpl.
  destruct (popup s) as [p|] eqn:Hp; simpl.
  all: destruct (isCollapsed (selection s)) eqn:Hc;
    destruct (selTextIs (selText s) (selectionToString env (selection s))) eqn:Ho;
    destruct (selText s) eqn:Hsel; simpl.
  all: eexists; split; [reflexivity|]; simpl; rewrite ?Hp.
  all: repeat split; try done.
  all: try (intros _ [?|?]; done).
  all: try (intros [?|[? ?]]; done).
Qed.

Lemma clearHighlight_result (s : State) :
  ∃ s', clearHighlight env s = (Return tt, s')
        ∧ selText s' = SelNull
        ∧ clearHighlight env s' = (Return tt, s')
        ∧ popup s' = popup s ∧ timers s' = timers s ∧ sent s' = sent s
        ∧ (selText s ≠ SelNull → ownSelection env s → selection s' = None).
Proof.
  unfold clearHighlight, mbind, M_bind, bind, get, modify, ret, ownSelection. simpl.
  destruct (isCollapsed (selection s)) eqn:Hc;
    destruct (selTextIs (selText s) (selectionToString env (selection s))) eqn:Ho;
    destruct (selText s) eqn:Hsel; simpl.
  all: eexists; split; [reflexivity|]; simpl; rewrite ?Hsel.
  all: repeat split; try done.
  all: try (intros _ [?|?]; done).
Qed.

Lemma selTextIs_refl t : selTextIs (SelString t) t = true.
Proof. simpl. by apply bool_decide_eq_true_2. Qed.

(** The loop of [highlightMatch] always ends on an entry when the list
    has one. *)
Lemma selEndLoop_is_Some (l : list SelEnd) (prev : SelEnd) (z : Z) :
  is_Some (selEndLoop l (Some prev) z).1.
Proof.
  revert prev z. induction l as [|e l IH]; intros prev z; simpl; [eauto|].
  destruct (z <=? offset e)%Z; [simpl; eauto|apply IH].
Qed.

Lemma projectEnd_nonempty (rangeStartOffset matchLen : Z) (l : list SelEnd) :
  l ≠ [] → is_Some (projectEnd rangeStartOffset matchLen l).
Proof.
  destruct l as [|e l]; [done|]. intros _. unfold projectEnd. simpl.
  destruct (rangeStartOffset + matchLen <=? offset e)%Z; [eauto|].
  pose proof (selEndLoop_is_Some l e (rangeStartOffset + matchLen - offset e)) as H.
  destruct (selEndLoop l (Some e) _) as [[e'|] off]; [eauto|]. by destruct H.
Qed.

End no_match_and_highlight.





(** ** Placing the popup *)

(** X12.  With an anchor element, a popup measured with positive width
    and height and a pointer strictly inside the page, [showPopup]
    returns with the popup displayed; its left edge is never left of the
    viewport nor right of the pointer, its right edge stays 20 short of
    the viewport's right edge whenever the popup is narrow enough to fit;
    and it is placed 25 below the pointer if it fits there or if there
    is no room above, and otherwise with its bottom 30 above the pointer. *)
Theorem showPopup_stays_in_view (env : Content.Browser) (html : ustring) (elem : NodeRef)
    (x y : Z) (s : Content.State) :
  (0 < Content.offsetWidth env html)%Z →
  (0 < Content.offsetHeight env html)%Z →
  (0 < x)%Z → (0 < y)%Z →
  (0 ≤ Content.scrollX env)%Z → (0 ≤ Content.scrollY env)%Z →
  let pW := Content.offsetWidth env html in
  let pH := Content.offsetHeight env html in
  ∃ s' l t,
    Content.showPopup env html (Some elem) (Some x) (Some y) s = (Content.Return tt, s')
    ∧ Content.popup s'
      = Some {| Content.innerHTML := html; Content.top := Some (t + Content.scrollY env)%Z;
                Content.left := Some (l + Content.scrollX env)%Z;
                Content.displayed := true |}
    ∧ (0 ≤ l ≤ x)%Z
    ∧ ((pW ≤ Content.innerWidth env - 20)%Z → (l + pW ≤ Content.innerWidth env - 20)%Z)
    ∧ ((t = y + 25 ∧ (y + 25 + pH ≤ Content.innerHeight env ∨ y - pH - 30 < 0))%Z
       ∨ (t = y - pH - 30 ∧ 0 ≤ t ∧ Content.innerHeight env < y + 25 + pH)%Z).
Proof.
  intros HW HH Hx Hy Hsx Hsy pW pH. unfold Content.showPopup.
  replace ((x =? 0)%Z || (y =? 0)%Z) with false by (symmetry; apply orb_false_iff; lia).
  unfold mbind, Content.M_bind, Content.bind, Content.get, Content.modify, Content.ret.
  simpl. fold pW pH.
  replace (pW <=? 0)%Z with false by lia. replace (pH <=? 0)%Z with false by lia.
  set (l := if (Content.innerWidth env - 20 <? x + pW)%Z
            then if (Content.innerWidth env - pW - 20 <? 0)%Z then 0%Z
                 else (Content.innerWidth env - pW - 20)%Z
            else x).
  set (t := if (Content.innerHeight env <? y + 25 + pH)%Z
            then if (0 <=? y - pH - 30)%Z then (y - pH - 30)%Z else (y + 25)%Z
            else (y + 25)%Z).
  assert ((0 ≤ l ≤ x)%Z
          ∧ ((pW ≤ Content.innerWidth env - 20)%Z → (l + pW ≤ Content.innerWidth env - 20)%Z))
    as [Hl Hfit].
  { unfold l. destruct (Content.innerWidth env - 20 <? x + pW)%Z eqn:E1;
      [destruct (Content.innerWidth env - pW - 20 <? 0)%Z eqn:E2|]; lia. }
  assert ((t = y + 25 ∧ (y + 25 + pH ≤ Content.innerHeight env ∨ y - pH - 30 < 0))%Z
          ∨ (t = y - pH - 30 ∧ 0 ≤ t ∧ Content.innerHeight env < y + 25 + pH)%Z) as Ht.
  { unfold t. destruct (Content.innerHeight env <? y + 25 + pH)%Z eqn:E1;
      [destruct (0 <=? y - pH - 30)%Z eqn:E2|]; lia. }
  assert (0 ≤ t)%Z as Htpos by lia.
  replace (l + Content.scrollX env =? -1)%Z with false by lia.
  replace (t + Content.scrollY env =? -1)%Z with false by lia.
  simpl. eexists _, l, t. split; [reflexivity|]. simpl. done.
Qed.

Lemma showPopup_stays_in_view_witness :
  ∃ s' l t,
    Content.showPopup (Sample.browser 300) (lit "x") (Some Sample.paragraph)
      (Some 1200%Z) (Some 700%Z) Content.initial = (Content.Return tt, s')
    ∧ Content.popup s'
      = Some {| Content.innerHTML := lit "x"; Content.top := Some (t + 0)%Z;
                Content.left := Some (l + 0)%Z; Content.displayed := true |}
    ∧ (0 ≤ l ≤ 1200)%Z
    ∧ ((300 ≤ 1280 - 20)%Z → (l + 300 ≤ 1280 - 20)%Z)
    ∧ ((t = 700 + 25 ∧ (700 + 25 + 80 ≤ 720 ∨ 700 - 80 - 30 < 0))%Z
       ∨ (t = 700 - 80 - 30 ∧ 0 ≤ t ∧ 720 < 700 + 25 + 80)%Z).
Proof.
  apply (showPopup_stays_in_view (Sample.browser 300) (lit "x") Sample.paragraph
           1200 700 Content.initial); simpl; lia.
Defined.

(** Near the bottom right corner the popup goes left and above. *)
Example showPopup_bottom_right :
  Content.popup
    (Content.showPopup (Sample.browser 300) (lit "x") (Some Sample.paragraph)
       (Some 1200%Z) (Some 700%Z) Content.initial).2
  = Some {| Content.innerHTML := lit "x"; Content.top := Some 590%Z;
            Content.left := Some 960%Z; Content.displayed := true |}.
Proof. reflexivity. Qed.

(** X13.  A [showPopup] message needs no measurement: in the top window
    it displays the message's text at the scroll position, whatever the
    popup's measured size, and in any other window it does nothing. *)
Theorem showPopup_message_effect (env : Content.Browser) (request : Request.t)
    (s : Content.State) :
  Request.type request = "showPopup" →
  Content.scrollX env ≠ (-1)%Z →
  Content.scrollY env ≠ (-1)%Z →
  ∃ s',
    Content.onMessage env request s = (Content.Return tt, s')
    ∧ (Content.isTopWindow env = true →
       Content.popup s'
       = Some {| Content.innerHTML := Request.text request;
                 Content.top := Some (Content.scrollY env);
                 Content.left := Some (Content.scrollX env);
                 Content.displayed := true |}
       ∧ Content.selection s' = Content.selection s
       ∧ Content.sent s' = Content.sent s)
    ∧ (Content.isTopWindow env = false → s' = s).
Proof.
  intros Hty Hx Hy. unfold Content.onMessage. rewrite Hty. simpl.
  destruct (Content.isTopWindow env); [|by exists s].
  unfold Content.showPopup, mbind, Content.M_bind, Content.bind, Content.get,
    Content.modify, Content.ret. simpl. rewrite !Z.add_0_l.
  replace (Content.scrollX env =? -1)%Z with false by lia.
  replace (Content.scrollY env =? -1)%Z with false by lia.
  simpl. eexists. split; [reflexivity|]. simpl. split; [|done]. intros _. done.
Qed.

Lemma showPopup_message_effect_witness :
  ∃ s',
    Content.onMessage (Sample.browser 0)
      {| Request.type := "showPopup"; Request.text := lit "hello";
         Request.originalText := []; Request.selStartOffset := 0 |} Content.initial
    = (Content.Return tt, s')
    ∧ (Content.isTopWindow (Sample.browser 0) = true →
       Content.popup s'
       = Some {| Content.innerHTML := lit "hello";
                 Content.top := Some (Content.scrollY (Sample.browser 0));
                 Content.left := Some (Content.scrollX (Sample.browser 0));
                 Content.displayed := true |}
       ∧ Content.selection s' = Content.selection Content.initial
       ∧ Content.sent s' = Content.sent Content.initial)
    ∧ (Content.isTopWindow (Sample.browser 0) = false → s' = Content.initial).
Proof.
  apply (showPopup_message_effect (Sample.browser 0)
           {| Request.type := "showPopup"; Request.text := lit "hello";
              Request.originalText := []; Request.selStartOffset := 0 |} Content.initial).
  - reflexivity.
  - discriminate.
  - discriminate.
Defined.

(** ** The bracketed traditional form *)

(** X14.  The [diff_trad] loop of [makeHtml] writes one code unit per
    character of the simplified form when the traditional form is at
    least as long: the middle dot U+30FB where both agree and the
    traditional character where they differ; for identical forms it is
    all dots. *)
Theorem diffTrad_marks_differences (simplified_ traditional_ : ustring) :
  length simplified_ ≤ length traditional_ →
  length (Content.diffTrad simplified_ traditional_) = length simplified_
  ∧ (∀ k c t, simplified_ !! k = Some c → traditional_ !! k = Some t →
       Content.diffTrad simplified_ traditional_ !! k
       = Some (if decide (c = t) then 12539%N else t))
  ∧ Content.diffTrad simplified_ simplified_ = replicate (length simplified_) 12539%N.
Proof.
  intros Hlen. split_and!.
  - revert traditional_ Hlen.
    induction simplified_ as [|c sim IH]; intros [|t trad] Hlen; simpl in *; try lia.
    rewrite length_app, IH by lia. by case_decide.
  - revert traditional_ Hlen.
    induction simplified_ as [|c sim IH]; intros [|t trad] Hlen k c' t'; simpl in *;
      try lia; try done.
    destruct k as [|k]; simpl.
    + intros [= <-] [= <-]. by case_decide.
    + intros Hc Ht. rewrite lookup_app_r by (case_decide; simpl; lia).
      replace (S k - length (if decide (c = t) then [12539%N] else [t])) with k
        by (case_decide; simpl; lia).
      apply IH; [lia|done|done].
  - clear Hlen. induction simplified_ as [|c sim IH]; simpl; [done|].
    rewrite decide_True by done. simpl. by rewrite IH.
Qed.

Lemma diffTrad_marks_differences_witness :
  length (Content.diffTrad [Sample.zhong; Sample.guo] [Sample.zhong; 22283%N])
  = length [Sample.zhong; Sample.guo]
  ∧ (∀ k c t, [Sample.zhong; Sample.guo] !! k = Some c →
       [Sample.zhong; 22283%N] !! k = Some t →
       Content.diffTrad [Sample.zhong; Sample.guo] [Sample.zhong; 22283%N] !! k
       = Some (if decide (c = t) then 12539%N else t))
  ∧ Content.diffTrad [Sample.zhong; Sample.guo] [Sample.zhong; Sample.guo]
    = replicate (length [Sample.zhong; Sample.guo]) 12539%N.
Proof.
  apply (diffTrad_marks_differences [Sample.zhong; Sample.guo] [Sample.zhong; 22283%N]).
  simpl. lia.
Defined.

(** 中国 against 中國 gives a dot and 國; a traditional form that is too
    short makes the loop read [undefined]. *)
Example diffTrad_zhongguo :
  Content.diffTrad [Sample.zhong; Sample.guo] [Sample.zhong; 22283%N] = [12539%N; 22283%N]
  ∧ Content.diffTrad [Sample.zhong; Sample.guo] [Sample.zhong]
    = 12539%N :: lit "undefined".
Proof. split; reflexivity. Qed.

(** ** Mouse moves *)

Section mouse_moves.
Import Content Frame.
Variable env : Browser.

Lemma hasText_Some textNode d off :
  nodeData (document env) textNode = Some d → (0 ≤ off < jslength d)%Z →
  hasText env textNode = Some d.
Proof.
  intros Hd Hoff. unfold hasText. rewrite Hd. rewrite bool_decide_false; [done|].
  intros ->. unfold jslength in Hoff. simpl in Hoff. lia.
Qed.

Lemma onePending_cancel s :
  onePending s →
  match timer s with
  | Some (S _ as id) => filter (λ i, i ≠ id) (timeouts s) = []
  | _ => timeouts s = []
  end.
Proof.
  intros [_ [H|(id & H & Ht & Hid)]]; rewrite H.
  - by destruct (timer s) as [[|?]|].
  - rewrite Ht. destruct id as [|id]; [lia|].
    rewrite filter_cons, decide_False by (intros Hne; by apply Hne). done.
Qed.

(** [clearHighlight(); hidePopup()] returns with the popup hidden and
    [selText] null, and touches neither the timers nor the outbox. *)
Lemma clear_then_hide (s : State) :
  ∃ s', (clearHighlight env;; hidePopup) s = (Return tt, s')
        ∧ popupShown s' = false ∧ selText s' = SelNull
        ∧ timeouts s' = timeouts s ∧ sent s' = sent s
        ∧ savedTarget s' = savedTarget s
        ∧ (popupX s', popupY s') = (popupX s, popupY s).
Proof.
  unfold clearHighlight, hidePopup, mbind, M_bind, bind, get, modify, ret, popupShown.
  simpl. destruct (selText s) eqn:Hsel; simpl;
    try destruct (isCollapsed (selection s) || _); simpl;
    destruct (popup s) eqn:Hp; simpl;
    (eexists; split; [reflexivity|]; simpl; rewrite ?Hp, ?Hsel; by repeat split).
Qed.

End mouse_moves.





(** ** A match within the buffer *)

Section found_match.
Import Content Frame.
Variable env : Browser.

(** What [highlightMatch] does with the checkpoints of [getText] and a
    length within the buffer. *)
Lemma highlightMatch_result (s : State) (startNode : NodeRef) (data : ustring)
    (offset_ : Z) (n : nat) (text : ustring) (l : list SelEnd) (m : nat) :
  nodeAt (document env) startNode = Some (Text data) →
  (0 ≤ offset_ < jslength data)%Z →
  getText (document env) startNode offset_ [] (Z.of_nat n) = Some (text, l) →
  m ≤ length text →
  ∃ s' r,
    highlightMatch env startNode offset_ (Z.of_nat m) l s = (Return tt, s')
    ∧ startContainer r = startNode
    ∧ startOffset r = offset_
    ∧ Reading.textOfRange (document env) r = take m text
    ∧ (ownSelection env s →
       selection s' = Some r ∧ selText s' = SelString (rangeText env r))
    ∧ (foreignSelection env s →
       selection s' = selection s ∧ selText s' = selText s)
    ∧ popup s' = popup s ∧ savedTarget s' = savedTarget s
    ∧ (popupX s', popupY s') = (popupX s, popupY s).
Proof.
  intros Hstart Hoff Hget Hm.
  destruct (getText_projectEnd _ startNode data offset_ n text l m Hstart Hoff Hget Hm)
    as (endNode & endOffset & Hp & Hend & Htext).
  unfold highlightMatch, setBoundary. rewrite Hp.
  assert (nodeLength (document env) startNode = jslength data) as Hlen
    by (unfold nodeLength; by rewrite Hstart).
  rewrite Hlen.
  replace (offset_ <? 0)%Z with false by lia.
  replace (jslength data <? offset_)%Z with false by lia.
  replace (endOffset <? 0)%Z with false by lia.
  replace (nodeLength (document env) endNode <? endOffset)%Z with false by lia.
  unfold ownSelection, foreignSelection.
  unfold mbind, M_bind, bind, get, modify, ret.
  simpl.
  destruct (isCollapsed (selection s)) eqn:Hc;
    destruct (selTextIs (selText s) (selectionToString env (selection s))) eqn:Ho; simpl.
  all: eexists _, {| startContainer := startNode; startOffset := offset_;
                     endContainer := endNode; endOffset := endOffset |}.
  all: split; [reflexivity|]; simpl.
  all: split; [done|]; split; [done|]; split; [done|]; split; [|split; [|done]].
  all: first [intros [? ?]|intros [?|?]]; first [discriminate|by split].
Qed.

(** With a popup of positive width, [showPopup] returns with the popup
    displayed and the selection as it was. *)
Lemma showPopup_total (html : ustring) (elem : NodeRef) (x y : option Z) (s : State) :
  (0 < offsetWidth env html)%Z →
  ∃ s', showPopup env html (Some elem) x y s = (Return tt, s')
        ∧ popupShown s' = true
        ∧ selection s' = selection s ∧ selText s' = selText s.
Proof.
  intros HW. unfold showPopup.
  destruct (match x, y with
            | Some x', Some y' => if (x' =? 0)%Z || (y' =? 0)%Z then (0, 0)%Z else (x', y')
            | _, _ => (0, 0)%Z
            end) as [x0 y0].
  unfold mbind, M_bind, bind, get, modify, ret, popupShown. simpl.
  replace (offsetWidth env html <=? 0)%Z with false by lia. simpl.
  destruct (negb _ && negb _); simpl; eexists; (split; [reflexivity|]); done.
Qed.

End found_match.

(** X17.  Highlighting a match that lies within the collected buffer
    never fails: with the checkpoints [getText] recorded from a position
    in a text node and a length of at most the buffer's,
    [highlightMatch] returns (neither boundary is out of range), the
    range it builds starts at that position and contains exactly the
    first [m] code units of the buffer, and it becomes the selection
    unless the reader holds a selection of their own, which is kept. *)
Theorem highlightMatch_within_buffer (env : Content.Browser) (s : Content.State)
    (startNode : NodeRef) (data : ustring) (offset_ : Z) (n : nat)
    (text : ustring) (l : list SelEnd) (m : nat) :
  nodeAt (Content.document env) startNode = Some (Text data) →
  (0 ≤ offset_ < jslength data)%Z →
  getText (Content.document env) startNode offset_ [] (Z.of_nat n) = Some (text, l) →
  m ≤ length text →
  ∃ s' r,
    Content.highlightMatch env startNode offset_ (Z.of_nat m) l s = (Content.Return tt, s')
    ∧ Content.startContainer r = startNode
    ∧ Content.startOffset r = offset_
    ∧ Reading.textOfRange (Content.document env) r = take m text
    ∧ (Frame.ownSelection env s →
       Content.selection s' = Some r
       ∧ Content.selText s' = Content.SelString (Content.rangeText env r))
    ∧ (Content.foreignSelection env s →
       Content.selection s' = Content.selection s
       ∧ Content.selText s' = Content.selText s).
Proof.
  intros Hstart Hoff Hget Hm.
  destruct (highlightMatch_result env s startNode data offset_ n text l m
              Hstart Hoff Hget Hm)
    as (s' & r & Hrun & Hn & Ho & Htext & Hown & Hforeign & _).
  by exists s', r.
Qed.

Lemma highlightMatch_within_buffer_witness :
  ∃ s' r,
    Content.highlightMatch (Sample.browser 300) Sample.firstText 0 (Z.of_nat 6)
      [{| node := Sample.firstText; offset := 5 |}; {| node := Sample.boldText; offset := 2 |}]
      Content.initial
    = (Content.Return tt, s')
    ∧ Content.startContainer r = Sample.firstText
    ∧ Content.startOffset r = 0%Z
    ∧ Reading.textOfRange (Content.document (Sample.browser 300)) r
      = take 6 [Sample.ni; Sample.hao; Sample.ma; Sample.zhong; Sample.guo;
                Sample.ren; Sample.min]
    ∧ (Frame.ownSelection (Sample.browser 300) Content.initial →
       Content.selection s' = Some r
       ∧ Content.selText s' = Content.SelString (Content.rangeText (Sample.browser 300) r))
    ∧ (Content.foreignSelection (Sample.browser 300) Content.initial →
       Content.selection s' = Content.selection Content.initial
       ∧ Content.selText s' = Content.selText Content.initial).
Proof.
  apply (highlightMatch_within_buffer (Sample.browser 300) Content.initial Sample.firstText
           [Sample.ni; Sample.hao; Sample.ma; Sample.zhong; Sample.guo] 0 7).
  - reflexivity.
  - vm_compute. split; [discriminate|reflexivity].
  - reflexivity.
  - simpl. lia.
Defined.


